(** * Resolution independence for LESS: a verified model of
      [lib/resolution-independence.js]

    The plugin rewrites lengths written in a fixed unit ([px]) into a
    root-relative unit ([rem]).  This development embeds the plugin's
    functions ([configure], [visitDeclaration], [processRuleNode],
    [processRuleNodes], [updateNode], [parseString], [parseValueObject],
    [parseValueString], [convertValue]) together with the ECMAScript
    built-ins they rely on, and proves properties of that embedding.

    - ECMAScript numbers are IEEE 754 binary64 values, taken from
      [SpecFloat] with [prec = 53] and [emax = 1024].
    - ECMAScript strings are modelled by [string]; every character is a
      code unit below 256.
    - Exceptions are explicit: a computation returns [Ok v] or [Throw e].
      The only exception the modelled code can raise is the [RangeError]
      of [toFixed].
    - The plugin rewrites the tree in place and visits every node once;
      the embedding returns the rewritten tree.  When an exception aborts
      the walk the partly rewritten tree is not returned. *)

From Stdlib Require Import ZArith NArith List String Ascii Bool Lia.
From Stdlib Require Import SpecFloat DecimalString DecimalN.
Import ListNotations.
#[local] Set Warnings "-register-all".
Local Open Scope string_scope.

(** ** Completions *)

Inductive error : Set := RangeError.

Inductive result (A : Type) : Type :=
| Ok (a : A)
| Throw (e : error).
Arguments Ok {A} a.
Arguments Throw {A} e.

Definition bind {A B : Type} (c : result A) (k : A -> result B) : result B :=
  match c with
  | Ok a => k a
  | Throw e => Throw e
  end.

Notation "x <- c ;; k" := (bind c (fun x => k))
  (at level 61, c at next level, right associativity).

(** ** Characters and decimal digits *)

Module Chars.

Definition code (c : ascii) : N := N_of_ascii c.

(** [\d] of the regular-expression language, and [DecimalDigit]. *)
Definition isDigit (c : ascii) : bool :=
  ((48 <=? code c) && (code c <=? 57))%N.

(** [\s] restricted to code units below 256: TAB, LF, VT, FF, CR, SP and
    NBSP.  The same set is [StrWhiteSpaceChar] of [parseFloat]. *)
Definition isSpace (c : ascii) : bool :=
  (((9 <=? code c) && (code c <=? 13)) || (code c =? 32) || (code c =? 160))%N.

Definition digitValue (c : ascii) : N := (code c - 48)%N.

(** Value of a run of decimal digits, most significant first. *)
Fixpoint digitsValue (acc : N) (s : string) : N :=
  match s with
  | EmptyString => acc
  | String c s' => digitsValue (10 * acc + digitValue c)%N s'
  end.

(** Longest prefix of characters satisfying [p], and the remainder. *)
Fixpoint span (p : ascii -> bool) (s : string) : string * string :=
  match s with
  | EmptyString => (EmptyString, EmptyString)
  | String c s' =>
      if p c then let '(a, b) := span p s' in (String c a, b)
      else (EmptyString, s)
  end.

Fixpoint dropWhile (p : ascii -> bool) (s : string) : string :=
  match s with
  | EmptyString => EmptyString
  | String c s' => if p c then dropWhile p s' else s
  end.

Fixpoint repeat0 (n : nat) : string :=
  match n with
  | O => EmptyString
  | S n' => String "0" (repeat0 n')
  end.

(** Decimal numeral of a natural number, without leading zeros. *)
Definition decimal (n : N) : string := NilEmpty.string_of_uint (N.to_uint n).

(** The first [n] characters, and what follows them. *)
Fixpoint take (n : nat) (s : string) : string :=
  match n, s with
  | S n', String c s' => String c (take n' s')
  | _, _ => EmptyString
  end.

Fixpoint drop (n : nat) (s : string) : string :=
  match n, s with
  | S n', String c s' => drop n' s'
  | _, _ => s
  end.

(** The sign printed before the digits of a number. *)
Definition signText (negative : bool) : string :=
  if negative then "-" else EmptyString.

(** An optional sign at the head of a numeral. *)
Definition signPrefix (s : string) : bool * string :=
  match s with
  | String c t =>
      if Ascii.eqb c "-" then (true, t)
      else if Ascii.eqb c "+" then (false, t)
      else (false, s)
  | EmptyString => (false, s)
  end.

End Chars.

(** ** ECMAScript numbers *)

Module Number.
Import Chars.

Definition number : Set := spec_float.

Definition prec : Z := 53.
Definition emax : Z := 1024.

Definition NaN : number := S754_nan.

Definition mul : number -> number -> number := SFmul prec emax.
Definition div : number -> number -> number := SFdiv prec emax.
Definition abs : number -> number := SFabs.
Definition ltb : number -> number -> bool := SFltb.
Definition leb : number -> number -> bool := SFleb.
Definition eqb : number -> number -> bool := SFeqb.

(** The number denoted by an integer literal. *)
Definition ofZ (z : Z) : number := binary_normalize prec emax z 0 false.

(** The binary64 value nearest to [n / d] (ties to even), signed. *)
Definition ofRatio (negative : bool) (n : N) (d : positive) : number :=
  match n with
  | N0 => S754_zero negative
  | Npos p =>
      let '(mz, ez, lz) := SFdiv_core_binary prec emax (Zpos p) 0 (Zpos d) 0 in
      binary_round_aux prec emax negative mz ez lz
  end.

(** The binary64 value nearest to [n * 10 ^ e]. *)
Definition ofDecimal (negative : bool) (n : N) (e : Z) : number :=
  match e with
  | Zneg k => ofRatio negative n (10 ^ k)%positive
  | _ => ofRatio negative (n * 10 ^ Z.to_N e)%N 1
  end.

(** [ToBoolean] on numbers: [+0], [-0] and [NaN] are falsy. *)
Definition ToBoolean (x : number) : bool :=
  match x with
  | S754_zero _ | S754_nan => false
  | _ => true
  end.

(** Same value, structurally. *)
Definition same (x y : number) : bool :=
  match x, y with
  | S754_zero a, S754_zero b => Bool.eqb a b
  | S754_infinity a, S754_infinity b => Bool.eqb a b
  | S754_nan, S754_nan => true
  | S754_finite a m e, S754_finite b m' e' =>
      Bool.eqb a b && (m =? m')%positive && (e =? e')%Z
  | _, _ => false
  end.

(** [ToIntegerOrInfinity]; [None] stands for an infinite result. *)
Definition ToIntegerOrInfinity (x : number) : option Z :=
  match x with
  | S754_nan | S754_zero _ => Some 0%Z
  | S754_infinity _ => None
  | S754_finite s m e =>
      let t := match e with
               | Zneg k => Z.shiftr (Zpos m) (Zpos k)
               | _ => Z.shiftl (Zpos m) e
               end in
      Some (if s then (- t)%Z else t)
  end.

(** The exact value [m * 2 ^ e] as a fraction. *)
Definition ratio (m : positive) (e : Z) : N * positive :=
  match e with
  | Z0 => (Npos m, 1%positive)
  | Zpos k => (Npos (Pos.shiftl m (Npos k)), 1%positive)
  | Zneg k => (Npos m, Pos.shiftl 1 (Npos k))
  end.

Definition nbDigits (n : N) : Z := Z.of_nat (length (decimal n)).

(** The [n] with [10 ^ (n - 1) <= num / den < 10 ^ n], for [0 < num]. *)
Definition decimalExponent (num : N) (den : positive) : Z :=
  if (Npos den <=? num)%N then nbDigits (num / Npos den)
  else
    let d := nbDigits (Npos den / num) in
    if (num * 10 ^ Z.to_N (d - 1) =? Npos den)%N then (2 - d)%Z else (1 - d)%Z.

(** [num / den * 10 ^ t] as quotient, remainder and divisor. *)
Definition scaled (num : N) (den : positive) (t : Z) : N * N * N :=
  let '(a, b) :=
    match t with
    | Zneg k => (num, Npos den * 10 ^ Npos k)%N
    | _ => (num * 10 ^ Z.to_N t, Npos den)%N
    end in
  ((a / b)%N, (a mod b)%N, b).

(** Search for the least number [k] of significant digits such that some
    [s * 10 ^ (n - k)] with [k] digits reads back as [x]; of two such
    [s] the one nearer to [x] is taken (the even one on a tie). *)
Fixpoint shortest (fuel : nat) (k : Z) (x : number) (num : N) (den : positive)
    (n : Z) : N * Z :=
  let '(lo, r, b) := scaled num den (k - n) in
  let hi := (lo + 1)%N in
  let okLo := same (ofDecimal false lo (n - k)) x in
  let okHi := negb (r =? 0)%N && same (ofDecimal false hi (n - k)) x in
  let pick :=
    match (2 * r ?= b)%N with
    | Lt => lo
    | Gt => hi
    | Eq => if N.even lo then lo else hi
    end in
  match fuel with
  | O => (pick, k)
  | S fuel' =>
      if okLo && okHi then (pick, k)
      else if okLo then (lo, k)
      else if okHi then (hi, k)
      else shortest fuel' (k + 1)%Z x num den n
  end.

Fixpoint stripZeros (fuel : nat) (s : N) : N :=
  match fuel with
  | O => s
  | S fuel' =>
      if ((s =? 0) || negb (s mod 10 =? 0))%N then s
      else stripZeros fuel' (s / 10)%N
  end.

(** [Number::toString] of a positive finite number [m * 2 ^ e]. *)
Definition toStringPositive (m : positive) (e : Z) : string :=
  let '(num, den) := ratio m e in
  let n0 := decimalExponent num den in
  let '(s0, k0) := shortest 20 1 (S754_finite false m e) num den n0 in
  let n := (n0 + (nbDigits s0 - k0))%Z in
  let ds := decimal (stripZeros 25 s0) in
  let k := Z.of_nat (length ds) in
  if ((k <=? n) && (n <=? 21))%Z then
    ds ++ repeat0 (Z.to_nat (n - k))
  else if ((0 <? n) && (n <=? 21))%Z then
    take (Z.to_nat n) ds ++ "." ++ drop (Z.to_nat n) ds
  else if ((-6 <? n) && (n <=? 0))%Z then
    "0." ++ repeat0 (Z.to_nat (- n)) ++ ds
  else
    let ex := (n - 1)%Z in
    let exs := (if (ex <? 0)%Z then "-" else "+") ++ decimal (Z.abs_N ex) in
    if (k =? 1)%Z then ds ++ "e" ++ exs
    else take 1 ds ++ "." ++ drop 1 ds ++ "e" ++ exs.

(** [Number::toString], radix 10. *)
Definition toString (x : number) : string :=
  match x with
  | S754_nan => "NaN"
  | S754_zero _ => "0"
  | S754_infinity s => if s then "-Infinity" else "Infinity"
  | S754_finite s m e => signText s ++ toStringPositive m e
  end.

(** The integer [n] for which [n / 10 ^ f - m * 2 ^ e] is closest to
    zero, the larger one when there are two. *)
Definition roundScaled (m : positive) (e : Z) (f : N) : N :=
  let '(num, den) := ratio m e in
  ((2 * num * 10 ^ f + Npos den) / (2 * Npos den))%N.

(** Digits of [n] with a decimal point before the last [f] of them. *)
Definition fixedDigits (n : N) (f : nat) : string :=
  let m := decimal n in
  match f with
  | O => m
  | S _ =>
      let m' := if (length m <=? f)%nat then repeat0 (S f - length m) ++ m else m in
      take (length m' - f) m' ++ "." ++ drop (length m' - f) m'
  end.

Definition atLeast1e21 (m : positive) (e : Z) : bool :=
  let '(num, den) := ratio m e in (10 ^ 21 * Npos den <=? num)%N.

(** [Number.prototype.toFixed (fractionDigits)]. *)
Definition toFixed (x fractionDigits : number) : result string :=
  match ToIntegerOrInfinity fractionDigits with
  | None => Throw RangeError
  | Some f =>
      if ((f <? 0) || (100 <? f))%Z then Throw RangeError
      else
        match x with
        | S754_nan | S754_infinity _ => Ok (toString x)
        | S754_zero _ => Ok (fixedDigits 0 (Z.to_nat f))
        | S754_finite s m e =>
            let sign := signText s in
            if atLeast1e21 m e then Ok (sign ++ toStringPositive m e)
            else Ok (sign ++ fixedDigits (roundScaled m e (Z.to_N f)) (Z.to_nat f))
        end
  end.

(** Optional [ExponentPart] at the head of [s]: its value, when present. *)
Definition exponentPart (s : string) : Z :=
  match s with
  | String c s' =>
      if (Ascii.eqb c "e" || Ascii.eqb c "E")%bool then
        let '(neg, s'') := signPrefix s' in
        let '(ds, _) := span isDigit s'' in
        match ds with
        | EmptyString => 0%Z
        | _ => let v := Z.of_N (digitsValue 0 ds) in if neg then (- v)%Z else v
        end
      else 0%Z
  | EmptyString => 0%Z
  end.

Fixpoint startsWith (p s : string) : bool :=
  match p, s with
  | EmptyString, _ => true
  | String a p', String b s' => Ascii.eqb a b && startsWith p' s'
  | String _ _, EmptyString => false
  end.

(** [parseFloat (string)]: the number denoted by the longest prefix of
    the trimmed string that is a [StrDecimalLiteral], else [NaN]. *)
Definition parseFloat (input : string) : number :=
  let trimmed := dropWhile isSpace input in
  let '(neg, body) := signPrefix trimmed in
  if startsWith "Infinity" body then S754_infinity neg
  else
    let '(ip, rest) := span isDigit body in
    let '(fp, rest') :=
      match rest with
      | String "." t =>
          let '(fp, t') := span isDigit t in
          match ip, fp with
          | EmptyString, EmptyString => (EmptyString, rest)
          | _, _ => (fp, t')
          end
      | _ => (EmptyString, rest)
      end in
    match ip, fp with
    | EmptyString, EmptyString => NaN
    | _, _ =>
        ofDecimal neg (digitsValue 0 (ip ++ fp))
                  (exponentPart rest' - Z.of_nat (length fp))
    end.

End Number.

(** ** ECMAScript strings and arrays *)

Module Str.
Import Chars.

(** [s.slice (-n)]: the last [n] characters; [slice (-0)] is [slice (0)],
    the whole string. *)
Definition sliceLast (n : nat) (s : string) : string :=
  match n with
  | O => s
  | S _ => drop (length s - n) s
  end.

(** [s.split (',')] for a one-character separator. *)
Fixpoint split (sep : ascii) (s : string) : list string :=
  match s with
  | EmptyString => [EmptyString]
  | String c s' =>
      if Ascii.eqb c sep then EmptyString :: split sep s'
      else
        match split sep s' with
        | h :: t => String c h :: t
        | [] => [String c EmptyString]
        end
  end.

(** [a.join (sep)] on an array of strings. *)
Fixpoint join (sep : string) (l : list string) : string :=
  match l with
  | [] => EmptyString
  | [x] => x
  | x :: rest => x ++ sep ++ join sep rest
  end.

Definition isBang (c : ascii) : bool := Ascii.eqb c "!".
Definition isDot (c : ascii) : bool := Ascii.eqb c ".".

(** The class [[^\s\.!]]. *)
Definition unitChar (c : ascii) : bool :=
  negb (isSpace c) && negb (isDot c) && negb (isBang c).

(** The class [[^\s!]]. *)
Definition wordChar (c : ascii) : bool := negb (isSpace c) && negb (isBang c).

(** First alternative, [\d+[\.]?\d+[^\s\.!]*], tried at the head of [s]
    with the backtracking priorities of the regular-expression engine:
    the first [\d+] takes the whole run of digits when a dot and a
    digit follow, and otherwise gives its last digit back to the second
    [\d+]. *)
Definition matchNumber (s : string) : option (string * string) :=
  let '(d1, r1) := span isDigit s in
  match d1 with
  | EmptyString => None
  | String _ d1' =>
      let viaDot :=
        match r1 with
        | String c r2 =>
            if isDot c then
              let '(d2, r3) := span isDigit r2 in
              match d2 with
              | EmptyString => None
              | _ => let '(u, r4) := span unitChar r3 in
                     Some (d1 ++ String c d2 ++ u, r4)
              end
            else None
        | EmptyString => None
        end in
      match viaDot with
      | Some m => Some m
      | None =>
          match d1' with
          | EmptyString => None
          | _ => let '(u, r2) := span unitChar r1 in Some (d1 ++ u, r2)
          end
      end
  end.

(** Second alternative, [[!]*[^\s!]+]. *)
Definition matchWord (s : string) : option (string * string) :=
  let '(b, r) := span isBang s in
  let '(w, r') := span wordChar r in
  match w with
  | EmptyString => None
  | _ => Some (b ++ w, r')
  end.

Definition matchAt (s : string) : option (string * string) :=
  match matchNumber s with
  | Some m => Some m
  | None => matchWord s
  end.

(** The global scan: leftmost match, then resume after it. *)
Fixpoint scan (fuel : nat) (s : string) : list string :=
  match fuel with
  | O => []
  | S fuel' =>
      match s with
      | EmptyString => []
      | String _ s' =>
          match matchAt s with
          | Some (tok, rest) => tok :: scan fuel' rest
          | None => scan fuel' s'
          end
      end
  end.

(** [s.match (/\d+[\.]?\d+[^\s\.!]*|[!]*[^\s!]+/g)]: the array of all
    matches, or [null] (here [None]) when there is none. *)
Definition matchTokens (s : string) : option (list string) :=
  match scan (length s) s with
  | [] => None
  | l => Some l
  end.

End Str.

(** ** The plugin *)

Import Number.

(** *** Data *)

(** The fields of a [ResolutionIndependencePlugin] instance (own or
    inherited from the prototype). *)
Record Plugin : Set := mkPlugin {
  _baseSize : number;
  _riUnit : string;
  _unit : string;
  _absoluteUnit : string;
  _minUnitSize : number;
  _minSize : number;
  _precision : number;
  _minScaleFactor : number;
  _currentPropName : option string
}.

(** The options hash of [configure]; [None] is an absent ([undefined])
    property. *)
Record Options : Set := mkOptions {
  baseSize : option number;
  riUnit : option string;
  unit : option string;
  absoluteUnit : option string;
  minUnitSize : option number;
  minSize : option number;
  precision : option number
}.

(** Modelled from the spec: the unit descriptor of a scalar, declared by
    the host stylesheet library and absent from the plugin's source: a
    list of unit symbols of which position 0 is authoritative, with an
    optional fallback symbol.  [None] is [undefined]. *)
Record UnitNode : Set := mkUnit {
  numerator : list (option string);
  backupUnit : option string
}.

(** Modelled from the spec: the value nodes, declared by the host
    stylesheet library and absent from the plugin's source.  A function
    call carries an [args] array and neither [value] nor [unit]; a scalar
    carries a numeric [value] and a [unit]; a raw string carries a text
    [value]; a composite list carries an array [value]. *)
Inductive node : Set :=
| Call (name : string) (args : list node)
| Dimension (value : number) (unitNode : UnitNode)
| Anonymous (value : string)
| Expression (value : list node).

(** Modelled from the spec: a declaration, declared by the host stylesheet
    library: a property name, the [inline] flag and the value subtree. *)
Record Declaration : Set := mkDeclaration {
  name : string;
  inline : bool;
  declValue : node
}.

(** What [visitDeclaration] hands to [processRuleNode]: the result of
    [node && !node.inline && node.value]. *)
Inductive ruleArg : Set :=
| RFalse
| RNode (n : node).

(** The values that reach [parseValueString]. *)
Inductive jsval : Set :=
| JUndefined
| JString (s : string)
| JArray (l : list node).

Definition truthy (v : jsval) : bool :=
  match v with
  | JUndefined => false
  | JString EmptyString => false
  | JString _ => true
  | JArray _ => true
  end.

(** [v.toString ()].  The tree nodes have no [toString] of their own, so
    an array of them prints each element as [[object Object]]. *)
Definition jsToString (v : jsval) : string :=
  match v with
  | JUndefined => "undefined"
  | JString s => s
  | JArray l => Str.join "," (map (fun _ => "[object Object]") l)
  end.

(** The text an array element contributes to [join]. *)
Definition joinItem (v : jsval) : string :=
  match v with
  | JUndefined => EmptyString
  | _ => jsToString v
  end.

(** *** Prototype fields and [csvProps] *)

Definition csvProps : list string :=
  ["background"; "background-size"; "background-position"].

Definition prototype : Plugin :=
  {| _baseSize := ofZ 24;
     _riUnit := "rem";
     _unit := "px";
     _absoluteUnit := "apx";
     _minUnitSize := ofZ 1;
     _minSize := ofZ 16;
     _precision := ofZ 5;
     (* not a prototype field: reading it before [configure] gives
        [undefined], whose numeric value is [NaN] *)
     _minScaleFactor := NaN;
     _currentPropName := None |}.

(** *** [configure] *)

Definition orElse {A : Type} (o : option A) (d : A) : A :=
  match o with
  | Some a => a
  | None => d
  end.

(** [opts] itself may be absent; [field] selects a property of it. *)
Definition pick {A : Type} (opts : option Options) (field : Options -> option A)
    (previous : A) : A :=
  match opts with
  | Some o => orElse (field o) previous
  | None => previous
  end.

Definition configure (this : Plugin) (opts : option Options) : Plugin :=
  let baseSize' := pick opts baseSize (_baseSize this) in
  let riUnit' := pick opts riUnit (_riUnit this) in
  let unit' := pick opts unit (_unit this) in
  let absoluteUnit' := pick opts absoluteUnit (_absoluteUnit this) in
  let minUnitSize' := pick opts minUnitSize (_minUnitSize this) in
  let minSize' := pick opts minSize (_minSize this) in
  let precision' := pick opts precision (_precision this) in
  {| _baseSize := baseSize';
     _riUnit := riUnit';
     _unit := unit';
     _absoluteUnit := absoluteUnit';
     _minUnitSize := minUnitSize';
     _minSize := minSize';
     _precision := precision';
     _minScaleFactor := div minSize' baseSize';
     _currentPropName := _currentPropName this |}.

(** [new ResolutionIndependencePlugin (opts)]. *)
Definition ResolutionIndependencePlugin (opts : option Options) : Plugin :=
  configure prototype opts.

(** *** [convertValue] *)

Definition convertValue (this : Plugin) (value : number) : result number :=
  s <- toFixed (div value (_baseSize this)) (_precision this) ;;
  Ok (parseFloat s).

(** *** [parseValueObject] *)

(** [(unitNode && unitNode.numerator && unitNode.numerator.length &&
    unitNode.numerator[0]) || unitNode.backupUnit] *)
Definition unitOf (unitNode : UnitNode) : option string :=
  match numerator unitNode with
  | Some (String c s) :: _ => Some (String c s)
  | _ => backupUnit unitNode
  end.

(** [unit == this._unit] for a unit that is a string or [undefined]. *)
Definition unitEq (u : option string) (s : string) : bool :=
  match u with
  | Some u' => String.eqb u' s
  | None => false
  end.

(** [value < 0 ? -1 : 1] *)
Definition signOf (value : number) : number :=
  if ltb value (ofZ 0) then ofZ (-1) else ofZ 1.

Definition parseValueObject (this : Plugin) (value : number) (unitNode : UnitNode)
    : result (number * option string) :=
  let unit := unitOf unitNode in
  if unitEq unit (_unit this) then
    let scaledValue := abs (mul value (_minScaleFactor this)) in
    if ToBoolean scaledValue && leb scaledValue (_minUnitSize this) then
      Ok (if ltb (abs value) (_minUnitSize this) then value
          else mul (_minUnitSize this) (signOf value),
          Some (_unit this))
    else
      v <- convertValue this value ;;
      Ok (v, Some (_riUnit this))
  else if unitEq unit (_absoluteUnit this) then
    Ok (value, Some (_unit this))
  else
    Ok (value, unit).

(** *** [parseValueString] *)

(** [value && value.toString ().slice (-1 * u.length) == u] *)
Definition hasSuffix (value : jsval) (u : string) : bool :=
  truthy value && String.eqb (Str.sliceLast (length u) (jsToString value)) u.

Definition parseValueString (this : Plugin) (value : jsval) : result jsval :=
  if hasSuffix value (_absoluteUnit this) then
    Ok (JString (toString (parseFloat (jsToString value)) ++ _unit this))
  else if hasSuffix value (_unit this) then
    let value := parseFloat (jsToString value) in
    let scaledValue := abs (mul value (_minScaleFactor this)) in
    if ToBoolean scaledValue && leb scaledValue (_minUnitSize this) then
      if ltb (abs value) (_minUnitSize this) then
        Ok (JString (toString value ++ _unit this))
      else
        Ok (JString (toString (mul (_minUnitSize this) (signOf value)) ++ _unit this))
    else
      v <- convertValue this value ;;
      Ok (JString (toString v ++ _riUnit this))
  else
    Ok value.

(** *** [parseString] *)

Fixpoint mapM {A B : Type} (f : A -> result B) (l : list A) : result (list B) :=
  match l with
  | [] => Ok []
  | a :: rest =>
      b <- f a ;;
      rest' <- mapM f rest ;;
      Ok (b :: rest')
  end.

(** [ruleNodeValue] is [ruleNode.value]; [stringValues] is the optional
    second argument.  The result is [undefined] ([None]) when the scan
    finds nothing. *)
Definition parseString (this : Plugin) (ruleNodeValue : string)
    (stringValues : option string) : result (option string) :=
  let value :=
    match stringValues with
    | Some (String c s) => String c s
    | _ => ruleNodeValue            (* [stringValues || ruleNode.value] *)
    end in
  match Str.matchTokens value with
  | Some stringValues' =>
      converted <- mapM (fun tok => parseValueString this (JString tok)) stringValues' ;;
      Ok (Some (Str.join " " (map joinItem converted)))
  | None => Ok None
  end.

(** *** The tree walk: [processRuleNode], [processRuleNodes], [updateNode] *)

(** [unitNode.numerator[0] = u] *)
Definition setNumerator0 (unitNode : UnitNode) (u : option string) : UnitNode :=
  {| numerator := match numerator unitNode with
                  | [] => [u]
                  | _ :: rest => u :: rest
                  end;
     backupUnit := backupUnit unitNode |}.

(** [ruleNode.value = v] *)
Definition withValue (ruleNode : node) (v : jsval) : node :=
  match v with
  | JString s => Anonymous s
  | JArray l => Expression l
  | JUndefined => ruleNode
  end.

(** [csvProps.indexOf (this._currentPropName) > -1] *)
Definition isCsvProp (this : Plugin) : bool :=
  match _currentPropName this with
  | Some n => existsb (String.eqb n) csvProps
  | None => false
  end.

(** String concatenation with a value that may be [undefined]. *)
Definition orUndefined (o : option string) : string :=
  match o with
  | Some s => s
  | None => "undefined"
  end.

Definition nonEmpty (s : string) : bool :=
  match s with
  | EmptyString => false
  | String _ _ => true
  end.

(** The loop over [csvStrings], threading [parsedString]. *)
Fixpoint csvLoop (this : Plugin) (ruleNodeValue : string) (csvStrings : list string)
    (parsedString : string) : result string :=
  match csvStrings with
  | [] => Ok parsedString
  | segment :: rest =>
      r <- parseString this ruleNodeValue (Some segment) ;;
      csvLoop this ruleNodeValue rest
        (parsedString ++ (if nonEmpty parsedString then ", " else EmptyString)
                      ++ orUndefined r)
  end.

(** [processRuleNode] on a node object, with the [updateNode] it calls. *)
Definition processRuleNodeWith (updateNode : node -> result node) (this : Plugin)
    (ruleNode : node) : result node :=
  match ruleNode with
  | Call name args =>                        (* [Array.isArray (ruleNode.args)] *)
      args' <- mapM updateNode args ;;
      Ok (Call name args')
  | Anonymous value =>                       (* [isString] *)
      let csvStrings := if isCsvProp this then Some (Str.split "," value) else None in
      parsedString <-
        match csvStrings with
        | Some ((_ :: _) as segments) =>
            s <- csvLoop this value segments EmptyString ;; Ok (Some s)
        | _ => parseString this value None
        end ;;
      match parsedString with
      | Some (String c s) => Ok (Anonymous (String c s))
      | _ => Ok ruleNode
      end
  | _ => updateNode ruleNode                 (* a single value object *)
  end.

Fixpoint updateNode (this : Plugin) (ruleNode : node) {struct ruleNode} : result node :=
  match ruleNode with
  | Expression value =>
      value' <-
        (fix processRuleNodes (ruleNodes : list node) : result (list node) :=
           match ruleNodes with
           | [] => Ok []
           | n :: rest =>
               n' <- processRuleNodeWith (updateNode this) this n ;;
               rest' <- processRuleNodes rest ;;
               Ok (n' :: rest')
           end) value ;;
      v <- parseValueString this (JArray value') ;;
      Ok (withValue (Expression value') v)
  | Dimension value unitNode =>
      r <- parseValueObject this value unitNode ;;
      Ok (Dimension (fst r) (setNumerator0 unitNode (snd r)))
  | Anonymous value =>
      v <- parseValueString this (JString value) ;;
      Ok (withValue ruleNode v)
  | Call _ _ =>
      v <- parseValueString this JUndefined ;;
      Ok (withValue ruleNode v)
  end.

Definition processRuleNodes (this : Plugin) (ruleNodes : list node)
    : result (list node) :=
  mapM (processRuleNodeWith (updateNode this) this) ruleNodes.

(** [processRuleNode].  On [false] every property read gives [undefined]:
    [args] is no array, [isString] is false, [csvStrings] stays unset,
    [updateNode (false)] skips its body and [parsedString] stays empty. *)
Definition processRuleNode (this : Plugin) (ruleNode : ruleArg) : result ruleArg :=
  match ruleNode with
  | RFalse => Ok RFalse
  | RNode n =>
      n' <- processRuleNodeWith (updateNode this) this n ;;
      Ok (RNode n')
  end.

(** *** [visitDeclaration] *)

(** [this._currentPropName = n] *)
Definition setCurrentPropName (this : Plugin) (n : string) : Plugin :=
  {| _baseSize := _baseSize this;
     _riUnit := _riUnit this;
     _unit := _unit this;
     _absoluteUnit := _absoluteUnit this;
     _minUnitSize := _minUnitSize this;
     _minSize := _minSize this;
     _precision := _precision this;
     _minScaleFactor := _minScaleFactor this;
     _currentPropName := Some n |}.

Definition visitDeclaration (this : Plugin) (node : Declaration)
    : result (Plugin * Declaration) :=
  let ruleNode := if inline node then RFalse else RNode (declValue node) in
  let this' := setCurrentPropName this (name node) in
  r <- processRuleNode this' ruleNode ;;
  Ok (this',
      match r with
      | RNode v => {| name := name node; inline := inline node; declValue := v |}
      | RFalse => node
      end).

(** ** The rules in the words of the specification *)

Module Spec.

(** [sign (value)]: [-1], [+1], and the argument itself on a zero or
    [NaN]. *)
Definition sign (x : number) : number :=
  match x with
  | S754_nan | S754_zero _ => x
  | S754_infinity s | S754_finite s _ _ => if s then ofZ (-1) else ofZ 1
  end.




(** The string-tokenization rule: every token converted, the tokens
    rejoined with one space; a text without tokens is left unchanged. *)
Definition tokenize (cfg : Plugin) (text : string) : result string :=
  match Str.matchTokens text with
  | Some tokens =>
      converted <- mapM (fun tok => parseValueString cfg (JString tok)) tokens ;;
      Ok (Str.join " " (map joinItem converted))
  | None => Ok text
  end.

(** The comma-group rule: split on the comma, tokenize each segment
    independently, rejoin with comma-space in the original order. *)
Definition commaGroups (cfg : Plugin) (text : string) : result string :=
  segments <- mapM (tokenize cfg) (Str.split "," text) ;;
  Ok (Str.join ", " segments).

End Spec.

(** ** Vocabulary of the statements *)

(** A field is supplied with [x], or omitted, by an options argument. *)
Definition supplied {A : Type} (opts : option Options) (field : Options -> option A)
    (x : A) : Prop :=
  exists o, opts = Some o /\ field o = Some x.

Definition omitted {A : Type} (opts : option Options) (field : Options -> option A)
    : Prop :=
  opts = None \/ exists o, opts = Some o /\ field o = None.

(** A supplied field is overwritten, an omitted one keeps its value. *)
Definition merged {A : Type} (opts : option Options) (field : Options -> option A)
    (get : Plugin -> A) (before after : Plugin) : Prop :=
  (forall x, supplied opts field x -> get after = x)
  /\ (omitted opts field -> get after = get before).

(** The branch test of the conversion: [scaledValue && scaledValue <=
    this._minUnitSize]. *)
Definition clamps (this : Plugin) (value : number) : bool :=
  let scaledValue := abs (mul value (_minScaleFactor this)) in
  ToBoolean scaledValue && leb scaledValue (_minUnitSize this).

(** A precision that [toFixed] accepts: an integer part between 0 and
    100. *)
Definition validPrecision (p : number) : bool :=
  match ToIntegerOrInfinity p with
  | Some f => ((0 <=? f) && (f <=? 100))%Z
  | None => false
  end.

Definition digitsOfPrecision (p : number) : nat :=
  match ToIntegerOrInfinity p with
  | Some f => Z.to_nat f
  | None => O
  end.

(** The sign and the scaled integer that fixed notation prints for [x]
    with [f] fractional digits; defined for a zero and for a finite [x]
    below [10 ^ 21] in magnitude. *)
Definition fixedValue (x : number) (f : nat) : option (bool * N) :=
  match x with
  | S754_zero _ => Some (false, 0%N)
  | S754_finite s m e =>
      if atLeast1e21 m e then None else Some (s, roundScaled m e (N.of_nat f))
  | _ => None
  end.

(** Number of characters after the decimal point of a numeral. *)
Fixpoint fractionDigits (s : string) : nat :=
  match s with
  | EmptyString => O
  | String c s' => if Str.isDot c then length s' else fractionDigits s'
  end.

Fixpoint allDigits (s : string) : bool :=
  match s with
  | EmptyString => true
  | String c s' => Chars.isDigit c && allDigits s'
  end.

(** The tail that fixed notation puts after the integer digits. *)
Definition pointTail (f : nat) (fp : string) : string :=
  match f with
  | O => EmptyString
  | S _ => String "." fp
  end.

(** Number of digits shown after the decimal point of a numeral: the run
    of digits that follows its first point. *)
Fixpoint shownFractionDigits (s : string) : nat :=
  match s with
  | EmptyString => O
  | String c s' =>
      if Str.isDot c then length (fst (Chars.span Chars.isDigit s'))
      else shownFractionDigits s'
  end.

(** A finite number of magnitude [10 ^ 21] or more: [toFixed] prints it
    in the notation of [Number::toString]. *)
Definition exponentialRange (x : number) : bool :=
  match x with
  | S754_finite _ m e => atLeast1e21 m e
  | _ => false
  end.

(** A base size by which a zero can be divided: neither a zero nor
    [NaN]. *)
Definition dividesZero (b : number) : bool :=
  match b with
  | S754_zero _ | S754_nan => false
  | _ => true
  end.

(** ** The scale-or-clamp rule in the words of the specification *)

Module Rule.

(** [n] is the integer nearest to [m * 2 ^ e * 10 ^ f], the larger of the
    two on a tie: the magnitude rounded half away from zero to [f]
    fractional digits, counted in units of [10 ^ - f]. *)
Definition nearestScaled (m : positive) (e : Z) (f : nat) (n : N) : Prop :=
  (2 * n * Npos (snd (ratio m e))
   <= 2 * fst (ratio m e) * 10 ^ N.of_nat f + Npos (snd (ratio m e))
   /\ 2 * fst (ratio m e) * 10 ^ N.of_nat f + Npos (snd (ratio m e))
      < 2 * (n + 1) * Npos (snd (ratio m e)))%N.

(** [r] is [x] rounded to [f] fractional digits: the number denoted by
    the decimal with [f] fractional digits nearest to [x].  [NaN] and the
    infinities have no digits to round; a quotient of magnitude [10 ^ 21]
    or more is read back from its own shortest decimal text. *)
Definition roundedTo (f : nat) (x r : number) : Prop :=
  match x with
  | S754_nan | S754_infinity _ => r = x
  | S754_zero _ => r = S754_zero false
  | S754_finite s m e =>
      if atLeast1e21 m e then r = parseFloat (toString x)
      else exists n, nearestScaled m e f n /\ r = ofDecimal s n (- Z.of_nat f)
  end.


End Rule.

(** ** Example data *)

Definition defaultPlugin : Plugin := ResolutionIndependencePlugin None.

Definition pxUnit : UnitNode := {| numerator := [Some "px"]; backupUnit := None |}.
Definition emUnit : UnitNode := {| numerator := [Some "em"]; backupUnit := None |}.
Definition apxUnit : UnitNode := {| numerator := [Some "apx"]; backupUnit := None |}.

(** A plugin configured with the absolute unit equal to the source unit. *)
Definition sameUnitsPlugin : Plugin :=
  ResolutionIndependencePlugin
    (Some {| baseSize := None; riUnit := None; unit := None;
             absoluteUnit := Some "px"; minUnitSize := None; minSize := None;
             precision := None |}).

Definition inlineMargin : Declaration :=
  {| name := "margin"; inline := true; declValue := Dimension (ofZ 24) pxUnit |}.

(** A [background] declaration whose text is a single space. *)
Definition blankBackground : Declaration :=
  {| name := "background"; inline := false; declValue := Anonymous " " |}.

(** A [background] declaration with an empty comma segment. *)
Definition gappedBackground : Declaration :=
  {| name := "background"; inline := false; declValue := Anonymous "10px,,5px" |}.

Definition positionPair : Declaration :=
  {| name := "background-position"; inline := false;
     declValue := Anonymous "10px 20px, 5px 5px" |}.





(** ** Vocabulary of the further properties *)

(** [visitRule], the alias of [visitDeclaration] kept for Less 2.x. *)
Definition visitRule : Plugin -> Declaration -> result (Plugin * Declaration) :=
  visitDeclaration.

(** Two options hashes applied one after the other: a field of the later
    hash wins when it is present. *)
Definition laterWins {A : Type} (first second : option A) : option A :=
  match second with
  | Some x => Some x
  | None => first
  end.

Definition mergeOptions (first second : Options) : Options :=
  {| baseSize := laterWins (baseSize first) (baseSize second);
     riUnit := laterWins (riUnit first) (riUnit second);
     unit := laterWins (unit first) (unit second);
     absoluteUnit := laterWins (absoluteUnit first) (absoluteUnit second);
     minUnitSize := laterWins (minUnitSize first) (minUnitSize second);
     minSize := laterWins (minSize first) (minSize second);
     precision := laterWins (precision first) (precision second) |}.

Fixpoint forall2b {A : Type} (f : A -> A -> bool) (l l' : list A) : bool :=
  match l, l' with
  | [], [] => true
  | x :: r, y :: r' => f x y && forall2b f r r'
  | _, _ => false
  end.

(** Two trees of the same shape: the same kind of node at every place,
    the same function names, the same number of arguments and of list
    elements. *)
Fixpoint sameShape (a b : node) : bool :=
  match a, b with
  | Call n args, Call n' args' => String.eqb n n' && forall2b sameShape args args'
  | Dimension _ _, Dimension _ _ => true
  | Anonymous _, Anonymous _ => true
  | Expression l, Expression l' => forall2b sameShape l l'
  | _, _ => false
  end.

Fixpoint lastChar (s : string) : option ascii :=
  match s with
  | EmptyString => None
  | String c EmptyString => Some c
  | String _ s' => lastChar s'
  end.

(** A unit symbol that the printed form of an array of nodes cannot end
    with: it is not empty and does not end in a closing bracket. *)
Definition plainUnit (u : string) : bool :=
  match lastChar u with
  | Some c => negb (Ascii.eqb c "]")
  | None => false
  end.

Fixpoint allChars (p : ascii -> bool) (s : string) : bool :=
  match s with
  | EmptyString => true
  | String c s' => p c && allChars p s'
  end.

(** White space or an exclamation mark. *)
Definition blankChar (c : ascii) : bool := Chars.isSpace c || Str.isBang c.

Definition notSpace (c : ascii) : bool := negb (Chars.isSpace c).

(** A token carries neither configured unit: [parseValueString] takes its
    last branch. *)
Definition inert (this : Plugin) (token : string) : bool :=
  negb (hasSuffix (JString token) (_absoluteUnit this))
  && negb (hasSuffix (JString token) (_unit this)).

(** A number that is a zero or finite. *)
Definition finiteNumber (x : number) : bool :=
  match x with
  | S754_zero _ | S754_finite _ _ _ => true
  | _ => false
  end.


(** Further example data. *)

Definition noOptions : Options :=
  {| baseSize := None; riUnit := None; unit := None; absoluteUnit := None;
     minUnitSize := None; minSize := None; precision := None |}.

(** A plugin configured with a base size of zero. *)
Definition zeroBasePlugin : Plugin :=
  ResolutionIndependencePlugin
    (Some {| baseSize := Some (ofZ 0); riUnit := None; unit := None;
             absoluteUnit := None; minUnitSize := None; minSize := None;
             precision := None |}).

(** A plugin configured with a base size that is not a number. *)
Definition nanBasePlugin : Plugin :=
  ResolutionIndependencePlugin
    (Some {| baseSize := Some NaN; riUnit := None; unit := None;
             absoluteUnit := None; minUnitSize := None; minSize := None;
             precision := None |}).

(** A plugin configured with a precision of 101. *)
Definition overPrecisePlugin : Plugin :=
  ResolutionIndependencePlugin
    (Some {| baseSize := None; riUnit := None; unit := None;
             absoluteUnit := None; minUnitSize := None; minSize := None;
             precision := Some (ofZ 101) |}).

(** The unit descriptor of a scalar without unit. *)
Definition noUnit : UnitNode := {| numerator := []; backupUnit := None |}.

(** A border declaration mixing scalars, a keyword and a function call. *)
Definition borderDeclaration : Declaration :=
  {| name := "border"; inline := false;
     declValue :=
       Expression [Expression [Dimension (ofZ 10) pxUnit; Anonymous "solid";
                               Call "rgba" [Dimension (ofZ 48) pxUnit;
                                            Dimension (ofZ 3) emUnit]]] |}.

(** The same declaration after conversion with the default configuration. *)
Definition borderConverted : Declaration :=
  {| name := "border"; inline := false;
     declValue :=
       Expression [Expression [Dimension (parseFloat "0.41667")
                                 {| numerator := [Some "rem"]; backupUnit := None |};
                               Anonymous "solid";
                               Call "rgba"
                                 [Dimension (ofZ 2)
                                    {| numerator := [Some "rem"]; backupUnit := None |};
                                  Dimension (ofZ 3) emUnit]]] |}.


(** * Properties *)

(** ** Facts about numbers *)

Section NumberFacts.


Lemma zero_never_scales (s : bool) (f : number) :
  ToBoolean (abs (mul (S754_zero s) f)) = false.
Proof. destruct f; reflexivity. Qed.


Lemma unitEq_refl (u : string) : unitEq (Some u) u = true.
Proof. apply String.eqb_refl. Qed.

Lemma unitEq_neq (u v : string) : u <> v -> unitEq (Some u) v = false.
Proof. intros H. apply String.eqb_neq. exact H. Qed.

End NumberFacts.

(** ** Decimal numerals *)

Section Numerals.

Import Chars.

Lemma digit_is_plain (c : ascii) :
  isDigit c = true ->
  Ascii.eqb c "-" = false /\ Ascii.eqb c "+" = false /\ isSpace c = false
  /\ Str.isDot c = false /\ Ascii.eqb "I" c = false.
Proof.
  destruct c as [[] [] [] [] [] [] [] []]; intros H;
    try (cbv in H; discriminate H); repeat split.
Qed.

Lemma allDigits_app (a b : string) :
  allDigits (a ++ b) = allDigits a && allDigits b.
Proof.
  induction a as [|c a IH]; simpl; [reflexivity|].
  rewrite IH. apply andb_assoc.
Qed.

Lemma span_digits_end (a : string) :
  allDigits a = true -> span isDigit a = (a, EmptyString).
Proof.
  induction a as [|c a IH]; simpl; [reflexivity|].
  intros H. apply andb_prop in H as [Hc Ha].
  rewrite Hc, (IH Ha). reflexivity.
Qed.

Lemma span_digits_stop (a : string) (c : ascii) (r : string) :
  allDigits a = true -> isDigit c = false ->
  span isDigit (a ++ String c r) = (a, String c r).
Proof.
  intros Ha Hc. induction a as [|d a IH]; simpl.
  - rewrite Hc. reflexivity.
  - simpl in Ha. apply andb_prop in Ha as [Hd Ha].
    rewrite Hd, (IH Ha). reflexivity.
Qed.

Lemma take_drop (k : nat) (s : string) : take k s ++ drop k s = s.
Proof.
  revert s. induction k as [|k IH]; intros [|c s]; simpl; try reflexivity.
  rewrite IH. reflexivity.
Qed.

Lemma length_drop (k : nat) (s : string) : length (drop k s) = length s - k.
Proof.
  revert s. induction k as [|k IH]; intros [|c s]; simpl; try reflexivity.
  apply IH.
Qed.

Lemma length_app (a b : string) : length (a ++ b) = length a + length b.
Proof. induction a as [|c a IH]; simpl; [reflexivity|]. rewrite IH. reflexivity. Qed.

Lemma length_repeat0 (n : nat) : length (repeat0 n) = n.
Proof. induction n as [|n IH]; simpl; [reflexivity|]. rewrite IH. reflexivity. Qed.

Lemma allDigits_repeat0 (n : nat) : allDigits (repeat0 n) = true.
Proof. induction n as [|n IH]; simpl; [reflexivity|]. exact IH. Qed.

Lemma digitsValue_app (acc : N) (a b : string) :
  digitsValue acc (a ++ b) = digitsValue (digitsValue acc a) b.
Proof.
  revert acc. induction a as [|c a IH]; intros acc; simpl; [reflexivity|].
  apply IH.
Qed.

Lemma digitsValue_repeat0 (n : nat) : digitsValue 0 (repeat0 n) = 0%N.
Proof. induction n as [|n IH]; simpl; [reflexivity|]. exact IH. Qed.

Lemma allDigits_uint (d : Decimal.uint) :
  allDigits (NilEmpty.string_of_uint d) = true.
Proof. induction d; simpl; try reflexivity; exact IHd. Qed.

Lemma digitsValue_uint_acc (d : Decimal.uint) (acc : positive) :
  digitsValue (Npos acc) (NilEmpty.string_of_uint d) = Npos (Pos.of_uint_acc d acc).
Proof.
  revert acc.
  induction d; intros acc;
    cbn [NilEmpty.string_of_uint digitsValue Pos.of_uint_acc];
    [reflexivity | rewrite <- IHd; f_equal;
                   set (v := digitValue _); vm_compute in v; subst v; lia ..].
Qed.

Lemma digitsValue_uint (d : Decimal.uint) :
  digitsValue 0 (NilEmpty.string_of_uint d) = N.of_uint d.
Proof.
  unfold N.of_uint.
  induction d;
    cbn [NilEmpty.string_of_uint digitsValue Pos.of_uint];
    [reflexivity | exact IHd | rewrite <- digitsValue_uint_acc; f_equal ..].
Qed.

Lemma digitsValue_decimal (n : N) : digitsValue 0 (decimal n) = n.
Proof.
  unfold decimal. rewrite digitsValue_uint. apply DecimalN.Unsigned.of_to.
Qed.

Lemma allDigits_decimal (n : N) : allDigits (decimal n) = true.
Proof. apply allDigits_uint. Qed.

Lemma decimal_length_pos (n : N) : 0 < length (decimal n).
Proof.
  unfold decimal. destruct n as [|p]; simpl; [lia|].
  pose proof (DecimalPos.Unsigned.to_uint_nonnil p) as H.
  destruct (Pos.to_uint p); simpl; try lia. congruence.
Qed.

End Numerals.

(** ** Fixed notation and its reading *)

Section FixedNotation.

Import Chars.

Lemma app_empty_r (s : string) : s ++ EmptyString = s.
Proof. induction s as [|c s IH]; simpl; [reflexivity|]. rewrite IH. reflexivity. Qed.

Lemma fixedDigits_shape (n : N) (f : nat) :
  exists ip fp,
    fixedDigits n f = ip ++ pointTail f fp
    /\ allDigits ip = true /\ 0 < length ip
    /\ allDigits fp = true /\ length fp = f
    /\ digitsValue 0 (ip ++ fp) = n.
Proof.
  unfold fixedDigits. destruct f as [|f].
  - exists (decimal n), EmptyString. simpl. rewrite app_empty_r.
    repeat split.
    + apply allDigits_decimal.
    + apply decimal_length_pos.
    + apply digitsValue_decimal.
  - set (m := decimal n).
    set (m' := if (length m <=? S f)%nat then repeat0 (S (S f) - length m) ++ m else m).
    assert (Hd : allDigits m' = true).
    { unfold m'. destruct (length m <=? S f)%nat.
      - rewrite allDigits_app, allDigits_repeat0. apply allDigits_decimal.
      - apply allDigits_decimal. }
    assert (Hv : digitsValue 0 m' = n).
    { unfold m'. destruct (length m <=? S f)%nat.
      - rewrite digitsValue_app, digitsValue_repeat0. apply digitsValue_decimal.
      - apply digitsValue_decimal. }
    assert (Hl : S f < length m').
    { unfold m'. destruct (Nat.leb_spec (length m) (S f)) as [H|H].
      - rewrite length_app, length_repeat0. lia.
      - exact H. }
    exists (take (length m' - S f) m'), (drop (length m' - S f) m').
    pose proof (take_drop (length m' - S f) m') as Htd.
    pose proof (length_drop (length m' - S f) m') as Hld.
    assert (Hlen : length (take (length m' - S f) m') + length (drop (length m' - S f) m')
                   = length m') by (rewrite <- length_app, Htd; reflexivity).
    rewrite <- Htd in Hd. rewrite allDigits_app in Hd.
    apply andb_prop in Hd as [Hd1 Hd2].
    repeat split; try assumption; try lia.
    rewrite Htd. exact Hv.
Qed.

Lemma fractionDigits_numeral (negative : bool) (ip fp : string) (f : nat) :
  allDigits ip = true -> length fp = f ->
  fractionDigits (signText negative ++ ip ++ pointTail f fp) = f.
Proof.
  intros Hip Hfp.
  assert (H : fractionDigits (ip ++ pointTail f fp) = f).
  { induction ip as [|c ip IH]; simpl.
    - destruct f; simpl; [reflexivity | exact Hfp].
    - simpl in Hip. apply andb_prop in Hip as [Hc Hip].
      destruct (digit_is_plain c Hc) as (_ & _ & _ & Hdot & _).
      rewrite Hdot. apply IH. exact Hip. }
  destruct negative; simpl; exact H.
Qed.

Lemma parseFloat_numeral (negative : bool) (ip fp : string) (f : nat) :
  allDigits ip = true -> 0 < length ip ->
  allDigits fp = true -> length fp = f ->
  parseFloat (signText negative ++ ip ++ pointTail f fp)
  = ofDecimal negative (digitsValue 0 (ip ++ fp)) (- Z.of_nat f).
Proof.
  intros Hip Hlen Hfp Hf.
  destruct ip as [|c ip]; [simpl in Hlen; lia|].
  pose proof Hip as Hip'. simpl in Hip'. apply andb_prop in Hip' as [Hc _].
  destruct (digit_is_plain c Hc) as (Hminus & Hplus & Hspace & Hdot & HI).
  assert (Hbody : forall body, body = String c ip ++ pointTail f fp ->
            (if startsWith "Infinity" body then S754_infinity negative
             else
               let '(ip0, rest) := span isDigit body in
               let '(fp0, rest') :=
                 match rest with
                 | String "." t =>
                     let '(fp0, t') := span isDigit t in
                     match ip0, fp0 with
                     | EmptyString, EmptyString => (EmptyString, rest)
                     | _, _ => (fp0, t')
                     end
                 | _ => (EmptyString, rest)
                 end in
               match ip0, fp0 with
               | EmptyString, EmptyString => NaN
               | _, _ =>
                   ofDecimal negative (digitsValue 0 (ip0 ++ fp0))
                             (exponentPart rest' - Z.of_nat (length fp0))
               end)
            = ofDecimal negative (digitsValue 0 (String c ip ++ fp)) (- Z.of_nat f)).
  { intros body ->.
    assert (Hinf : startsWith "Infinity" (String c ip ++ pointTail f fp) = false).
    { change (String c ip ++ pointTail f fp) with (String c (ip ++ pointTail f fp)).
      cbn [startsWith]. rewrite HI. reflexivity. }
    rewrite Hinf.
    destruct f as [|f].
    - destruct fp; [|discriminate Hf].
      unfold pointTail. rewrite !app_empty_r.
      rewrite (span_digits_end _ Hip). cbv iota beta.
      rewrite app_empty_r. reflexivity.
    - unfold pointTail.
      rewrite (span_digits_stop _ "." fp Hip eq_refl).
      rewrite (span_digits_end _ Hfp). rewrite Hf.
      destruct fp; reflexivity. }
  unfold parseFloat.
  destruct negative; unfold signText.
  - change ("-" ++ String c ip ++ pointTail f fp)
      with (String "-" (String c ip ++ pointTail f fp)).
    cbn [dropWhile]. change (isSpace "-") with false. cbv iota.
    cbn [signPrefix]. change (Ascii.eqb "-" "-") with true. cbv iota beta.
    apply Hbody. reflexivity.
  - change (EmptyString ++ String c ip ++ pointTail f fp)
      with (String c (ip ++ pointTail f fp)).
    cbn [dropWhile]. rewrite Hspace.
    cbn [signPrefix]. rewrite Hminus, Hplus. cbv iota beta.
    apply Hbody. reflexivity.
Qed.

(** Fixed notation of a zero or of a finite number below [10 ^ 21] has
    exactly the requested number of fractional digits, and reads back as
    the number nearest to the printed decimal. *)
Lemma toFixed_fixedValue (x p : number) (negative : bool) (n : N) :
  validPrecision p = true ->
  fixedValue x (digitsOfPrecision p) = Some (negative, n) ->
  exists s,
    toFixed x p = Ok s
    /\ fractionDigits s = digitsOfPrecision p
    /\ parseFloat s = ofDecimal negative n (- Z.of_nat (digitsOfPrecision p)).
Proof.
  unfold validPrecision, digitsOfPrecision, toFixed.
  destruct (ToIntegerOrInfinity p) as [f|]; [|discriminate].
  intros Hp Hx. apply andb_prop in Hp as [H0 H100].
  apply Z.leb_le in H0. apply Z.leb_le in H100.
  replace ((f <? 0)%Z || (100 <? f)%Z) with false
    by (symmetry; apply orb_false_intro; [apply Z.ltb_ge|apply Z.ltb_ge]; lia).
  destruct x as [s|s| |s m e]; try discriminate Hx.
  - injection Hx as <- <-.
    destruct (fixedDigits_shape 0 (Z.to_nat f)) as (ip & fp & Hs & Hip & Hl & Hfp & Hf & Hv).
    exists (fixedDigits 0 (Z.to_nat f)). split; [reflexivity|].
    rewrite Hs. split.
    + apply (fractionDigits_numeral false); assumption.
    + rewrite <- Hv. apply (parseFloat_numeral false); assumption.
  - simpl in Hx. destruct (atLeast1e21 m e); [discriminate Hx|].
    injection Hx as <- <-.
    rewrite Z_nat_N.
    destruct (fixedDigits_shape (roundScaled m e (Z.to_N f)) (Z.to_nat f))
      as (ip & fp & Hs & Hip & Hl & Hfp & Hf & Hv).
    eexists. split; [reflexivity|].
    rewrite Hs. split.
    + apply fractionDigits_numeral; assumption.
    + rewrite <- Hv. apply parseFloat_numeral; assumption.
Qed.

(** The scaled integer is the nearest one, the larger on a tie. *)
Lemma roundScaled_nearest (m : positive) (e : Z) (f : N) :
  let '(num, den) := ratio m e in
  let n := roundScaled m e f in
  (2 * n * Npos den <= 2 * num * 10 ^ f + Npos den
   /\ 2 * num * 10 ^ f + Npos den < 2 * (n + 1) * Npos den)%N.
Proof.
  unfold roundScaled. destruct (ratio m e) as [num den].
  set (a := (2 * num * 10 ^ f + N.pos den)%N).
  set (b := (2 * N.pos den)%N).
  assert (Hb : (b <> 0)%N) by (unfold b; lia).
  pose proof (N.Div0.mul_div_le a b) as H1.
  pose proof (N.mul_succ_div_gt a b Hb) as H2.
  unfold b in *. split; lia.
Qed.

End FixedNotation.

(** ** The token scan *)

Section Scan.

Import Chars.

Lemma span_length (p : ascii -> bool) (s a b : string) :
  span p s = (a, b) -> length s = length a + length b.
Proof.
  revert a b. induction s as [|c s IH]; simpl; intros a b H.
  - injection H as <- <-. reflexivity.
  - destruct (p c).
    + destruct (span p s) as [a' b'] eqn:E. injection H as <- <-.
      simpl. rewrite (IH a' b' eq_refl). reflexivity.
    + injection H as <- <-. reflexivity.
Qed.

Lemma matchNumber_consumes (s tok rest : string) :
  Str.matchNumber s = Some (tok, rest) -> length rest < length s.
Proof.
  unfold Str.matchNumber.
  destruct (span isDigit s) as [d1 r1] eqn:E1.
  apply span_length in E1.
  destruct d1 as [|c0 d1']; [discriminate|].
  simpl in E1.
  assert (Hdot : forall m,
    match r1 with
    | String c r2 =>
        if Str.isDot c then
          let '(d2, r3) := span isDigit r2 in
          match d2 with
          | EmptyString => None
          | _ => let '(u, r4) := span Str.unitChar r3 in
                 Some (String c0 d1' ++ String c d2 ++ u, r4)
          end
        else None
    | EmptyString => None
    end = Some m -> length (snd m) < length s).
  { intros m. destruct r1 as [|c r2]; [discriminate|].
    destruct (Str.isDot c); [|discriminate].
    destruct (span isDigit r2) as [d2 r3] eqn:E2. apply span_length in E2.
    destruct d2; [discriminate|].
    destruct (span Str.unitChar r3) as [u r4] eqn:E3. apply span_length in E3.
    intros H. injection H as <-. simpl in *. lia. }
  match goal with
  | |- match ?v with Some _ => _ | None => _ end = _ -> _ =>
      destruct v as [m|] eqn:Ev
  end.
  - intros H. injection H as ->. apply (Hdot _ eq_refl).
  - destruct d1'; [discriminate|].
    destruct (span Str.unitChar r1) as [u r2] eqn:E3. apply span_length in E3.
    intros H. injection H as <- <-. simpl in *. lia.
Qed.

Lemma matchWord_consumes (s tok rest : string) :
  Str.matchWord s = Some (tok, rest) -> length rest < length s.
Proof.
  unfold Str.matchWord.
  destruct (span Str.isBang s) as [b r] eqn:E1. apply span_length in E1.
  destruct (span Str.wordChar r) as [w r'] eqn:E2. apply span_length in E2.
  destruct w; [discriminate|].
  intros H. injection H as <- <-. simpl in *. lia.
Qed.

Lemma matchAt_consumes (s tok rest : string) :
  Str.matchAt s = Some (tok, rest) -> length rest < length s.
Proof.
  unfold Str.matchAt.
  destruct (Str.matchNumber s) as [[t r]|] eqn:E.
  - intros H. injection H as <- <-. exact (matchNumber_consumes _ _ _ E).
  - apply matchWord_consumes.
Qed.

(** The scan never runs out of fuel: any fuel of at least the length of
    the text gives the same tokens. *)
Lemma scan_fuel_irrelevant (n m : nat) (s : string) :
  length s <= n -> length s <= m -> Str.scan n s = Str.scan m s.
Proof.
  revert m s. induction n as [|n IH]; intros m s Hn Hm.
  - destruct s; [|simpl in Hn; lia]. destruct m; reflexivity.
  - destruct m as [|m].
    + destruct s; [reflexivity|simpl in Hm; lia].
    + destruct s as [|c s]; [reflexivity|].
      cbn [Str.scan].
      destruct (Str.matchAt (String c s)) as [[tok rest]|] eqn:E.
      * apply matchAt_consumes in E. simpl in *.
        f_equal. apply IH; lia.
      * simpl in *. apply IH; lia.
Qed.

End Scan.

(** ** Concrete runs *)

Section Runs.

Example toFixed_runs :
  toFixed (parseFloat "2.5") (ofZ 0) = Ok "3"
  /\ toFixed (parseFloat "-1.5") (ofZ 0) = Ok "-2"
  /\ toFixed (parseFloat "1.005") (ofZ 2) = Ok "1.00"
  /\ toFixed (parseFloat "8.345") (ofZ 2) = Ok "8.35"
  /\ toFixed (parseFloat "-0.0000001") (ofZ 2) = Ok "-0.00"
  /\ toFixed (parseFloat "1e21") (ofZ 2) = Ok "1e+21"
  /\ toFixed NaN (ofZ 2) = Ok "NaN"
  /\ toFixed (ofZ 1) (ofZ 101) = Throw RangeError
  /\ toFixed (ofZ 1) (ofZ (-1)) = Throw RangeError.
Proof. repeat split; vm_compute; reflexivity. Qed.

Example toString_runs :
  toString (div (ofZ 1) (ofZ 3)) = "0.3333333333333333"
  /\ toString (mul (ofZ 3) (parseFloat "0.1")) = "0.30000000000000004"
  /\ toString (parseFloat "123456789012345680000") = "123456789012345680000"
  /\ toString (parseFloat "1e21") = "1e+21"
  /\ toString (parseFloat "0.000001") = "0.000001"
  /\ toString (parseFloat "1e-7") = "1e-7"
  /\ toString (parseFloat "5e-324") = "5e-324"
  /\ toString (parseFloat "-0") = "0".
Proof. repeat split; vm_compute; reflexivity. Qed.

Example parseFloat_runs :
  parseFloat "10px" = ofZ 10
  /\ parseFloat "-.5e1px" = ofZ (-5)
  /\ parseFloat "5.e3" = ofZ 5000
  /\ parseFloat "1e" = ofZ 1
  /\ parseFloat "px" = NaN
  /\ parseFloat "." = NaN
  /\ parseFloat "9007199254740993" = ofZ 9007199254740992.
Proof. repeat split; vm_compute; reflexivity. Qed.

Example matchTokens_runs :
  Str.matchTokens "1.5px 2.px 3 4.5.6 !important a!b"
  = Some ["1.5px"; "2.px"; "3"; "4.5"; ".6"; "!important"; "a"; "!b"]
  /\ Str.matchTokens "10px,,5px" = Some ["10px,,5px"]
  /\ Str.matchTokens "!!! x" = Some ["x"]
  /\ Str.matchTokens "! " = None.
Proof. repeat split; vm_compute; reflexivity. Qed.

(** The worked examples of the clamp floor, of scaling and of the sign. *)
Example parseValueObject_runs :
  parseValueObject defaultPlugin (ofZ 1) pxUnit = Ok (ofZ 1, Some "px")
  /\ parseValueObject defaultPlugin (ofZ 24) pxUnit = Ok (ofZ 1, Some "rem")
  /\ parseValueObject defaultPlugin (parseFloat "-0.5") pxUnit
     = Ok (parseFloat "-0.5", Some "px")
  /\ parseValueObject defaultPlugin (ofZ (-2)) pxUnit
     = Ok (parseFloat "-0.08333", Some "rem")
  /\ parseValueObject defaultPlugin (parseFloat "-1.2") pxUnit = Ok (ofZ (-1), Some "px").
Proof. repeat split; vm_compute; reflexivity. Qed.

(** A composite value with a function call inside. *)
Example updateNode_runs :
  updateNode defaultPlugin
    (Expression [Dimension (ofZ 10) pxUnit; Anonymous "solid";
                 Call "calc" [Dimension (ofZ 48) pxUnit; Dimension (ofZ 3) emUnit]])
  = Ok (Expression
          [Dimension (parseFloat "0.41667")
             {| numerator := [Some "rem"]; backupUnit := None |};
           Anonymous "solid";
           Call "calc"
             [Dimension (ofZ 2) {| numerator := [Some "rem"]; backupUnit := None |};
              Dimension (ofZ 3) emUnit]]).
Proof. vm_compute; reflexivity. Qed.

End Runs.

(** ** Comma groups whose segments all carry tokens *)

Section CommaGroups.

Import Chars.

Lemma nonEmpty_app_l (a b : string) : nonEmpty a = true -> nonEmpty (a ++ b) = true.
Proof. destruct a; [discriminate|reflexivity]. Qed.

Lemma nonEmpty_app_r (a b : string) : nonEmpty b = true -> nonEmpty (a ++ b) = true.
Proof. destruct a; [intros H; exact H|reflexivity]. Qed.

Lemma nonEmpty_decimal (n : N) : nonEmpty (decimal n) = true.
Proof.
  pose proof (decimal_length_pos n) as H.
  destruct (decimal n); [simpl in H; lia|reflexivity].
Qed.

Lemma toString_nonEmpty (x : number) : nonEmpty (toString x) = true.
Proof.
  destruct x as [s|s| |s m e]; try reflexivity.
  - destruct s; reflexivity.
  - unfold toString. destruct s; [reflexivity|].
    unfold signText. cbn [append]. unfold toStringPositive.
    destruct (ratio m e) as [num den].
    destruct (shortest _ _ _ _ _ _) as [s0 k0]. cbv zeta.
    repeat match goal with
           | |- nonEmpty (if ?c then _ else _) = true => destruct c
           end;
      first [ apply nonEmpty_app_l; apply nonEmpty_decimal
            | apply nonEmpty_app_r; reflexivity
            | reflexivity ].
Qed.

Lemma app_assoc_s (a b c : string) : (a ++ b) ++ c = a ++ b ++ c.
Proof. induction a as [|x a IH]; simpl; [reflexivity|]. rewrite IH. reflexivity. Qed.

Lemma matchAt_token_nonEmpty (s tok rest : string) :
  Str.matchAt s = Some (tok, rest) -> nonEmpty tok = true.
Proof.
  unfold Str.matchAt, Str.matchNumber, Str.matchWord.
  destruct (span isDigit s) as [d1 r1].
  destruct d1 as [|c0 d1'].
  - destruct (span Str.isBang s) as [b r]. destruct (span Str.wordChar r) as [w r'].
    destruct w; [discriminate|]. intros H. injection H as <- <-.
    apply nonEmpty_app_r. reflexivity.
  - match goal with
    | |- match match ?v with Some _ => _ | None => _ end with _ => _ end = _ -> _ =>
        destruct v as [[t r]|] eqn:Ev
    end.
    + intros H. injection H as <- <-.
      destruct r1 as [|c r2]; [discriminate|].
      destruct (Str.isDot c); [|discriminate].
      destruct (span isDigit r2) as [d2 r3]. destruct d2; [discriminate|].
      destruct (span Str.unitChar r3) as [u r4]. injection Ev as <- <-. reflexivity.
    + destruct d1'.
      * destruct (span Str.isBang s) as [b r]. destruct (span Str.wordChar r) as [w r'].
        destruct w; [discriminate|]. intros H. injection H as <- <-.
        apply nonEmpty_app_r. reflexivity.
      * destruct (span Str.unitChar r1) as [u r2]. intros H. injection H as <- <-.
        reflexivity.
Qed.

Lemma scan_tokens_nonEmpty (fuel : nat) (s : string) :
  Forall (fun tok => nonEmpty tok = true) (Str.scan fuel s).
Proof.
  revert s. induction fuel as [|fuel IH]; intros s; simpl; [constructor|].
  destruct s as [|c s]; [constructor|].
  destruct (Str.matchAt (String c s)) as [[tok rest]|] eqn:E.
  - constructor; [exact (matchAt_token_nonEmpty _ _ _ E)|apply IH].
  - apply IH.
Qed.

Lemma parseValueString_nonEmpty (this : Plugin) (tok : string) (v : jsval) :
  nonEmpty tok = true ->
  parseValueString this (JString tok) = Ok v ->
  nonEmpty (joinItem v) = true.
Proof.
  intros Ht. unfold parseValueString.
  destruct (hasSuffix _ (_absoluteUnit this)).
  - intros H. injection H as <-. apply nonEmpty_app_l, toString_nonEmpty.
  - destruct (hasSuffix _ (_unit this)).
    + cbv zeta. destruct (_ && _).
      * destruct (ltb _ _); intros H; injection H as <-;
          apply nonEmpty_app_l, toString_nonEmpty.
      * destruct (convertValue _ _); simpl; [|discriminate].
        intros H. injection H as <-. apply nonEmpty_app_l, toString_nonEmpty.
    + intros H. injection H as <-. exact Ht.
Qed.

Lemma mapM_Forall {A B : Type} (f : A -> result B) (P : A -> Prop) (Q : B -> Prop)
    (l : list A) (l' : list B) :
  (forall a b, P a -> f a = Ok b -> Q b) ->
  Forall P l -> mapM f l = Ok l' -> Forall Q l' /\ List.length l' = List.length l.
Proof.
  intros Hf. revert l'. induction l as [|a l IH]; intros l' HP; simpl.
  - intros H. injection H as <-. split; [constructor|reflexivity].
  - inversion HP as [|? ? Ha Hl]; subst.
    destruct (f a) as [b|] eqn:Eb; simpl; [|discriminate].
    destruct (mapM f l) as [bs|] eqn:Ebs; simpl; [|discriminate].
    intros H. injection H as <-.
    destruct (IH bs Hl eq_refl) as [HQ Hlen].
    split; [constructor; [exact (Hf _ _ Ha Eb)|exact HQ]|simpl; rewrite Hlen; reflexivity].
Qed.

Lemma join_nonEmpty (sep : string) (l : list string) :
  l <> [] -> Forall (fun t => nonEmpty t = true) l -> nonEmpty (Str.join sep l) = true.
Proof.
  destruct l as [|x l]; [congruence|]. intros _ H.
  inversion H as [|? ? Hx _]; subst.
  destruct l; simpl; [exact Hx|apply nonEmpty_app_l; exact Hx].
Qed.

(** A segment with tokens converts to a non-empty text. *)
Lemma tokenize_nonEmpty (this : Plugin) (segment t : string) :
  Str.matchTokens segment <> None ->
  Spec.tokenize this segment = Ok t -> nonEmpty t = true.
Proof.
  unfold Spec.tokenize, Str.matchTokens.
  pose proof (scan_tokens_nonEmpty (length segment) segment) as Htok.
  destruct (Str.scan (length segment) segment) as [|tok toks]; [congruence|].
  intros _.
  destruct (mapM _ (tok :: toks)) as [converted|] eqn:E; simpl; [|discriminate].
  intros H. injection H as <-.
  destruct (mapM_Forall _ _ (fun v => nonEmpty (joinItem v) = true) _ _
              (parseValueString_nonEmpty this) Htok E) as [HQ Hlen].
  apply join_nonEmpty.
  - destruct converted; [discriminate Hlen|discriminate].
  - clear -HQ. induction HQ; constructor; assumption.
Qed.

(** On a non-empty segment with tokens, [parseString] is the
    tokenization rule. *)
Lemma parseString_segment (this : Plugin) (ruleNodeValue segment : string) :
  nonEmpty segment = true ->
  Str.matchTokens segment <> None ->
  parseString this ruleNodeValue (Some segment)
  = (t <- Spec.tokenize this segment ;; Ok (Some t)).
Proof.
  intros Hs Hm. unfold parseString, Spec.tokenize.
  destruct segment as [|c s]; [discriminate|].
  destruct (Str.matchTokens (String c s)) as [toks|]; [|congruence].
  destruct (mapM _ toks); reflexivity.
Qed.

(** One round of [parsedString += (parsedString ? ', ' : '') + t]. *)
Lemma glue_join (ts : list string) (acc : string) :
  nonEmpty acc = true ->
  fold_left (fun a t => a ++ (if nonEmpty a then ", " else EmptyString) ++ t) ts acc
  = Str.join ", " (acc :: ts).
Proof.
  revert acc. induction ts as [|t ts IH]; intros acc Ha; [reflexivity|].
  cbn [fold_left]. rewrite Ha.
  rewrite IH by (apply nonEmpty_app_l; exact Ha).
  cbn [Str.join]. destruct ts; [reflexivity|].
  rewrite !app_assoc_s. reflexivity.
Qed.

Lemma csvLoop_tokenized (this : Plugin) (ruleNodeValue : string) (segments : list string)
    (acc : string) :
  Forall (fun seg => nonEmpty seg = true /\ Str.matchTokens seg <> None) segments ->
  csvLoop this ruleNodeValue segments acc
  = (ts <- mapM (Spec.tokenize this) segments ;;
     Ok (fold_left (fun a t => a ++ (if nonEmpty a then ", " else EmptyString) ++ t)
                   ts acc)).
Proof.
  intros H. revert acc. induction H as [|seg segs [Hs Hm] _ IH]; intros acc;
    [reflexivity|].
  cbn [csvLoop mapM]. rewrite (parseString_segment _ _ _ Hs Hm).
  destruct (Spec.tokenize this seg) as [t|]; simpl; [|reflexivity].
  rewrite IH. destruct (mapM (Spec.tokenize this) segs); reflexivity.
Qed.

(** For a comma-group property, a text all of whose comma segments are
    non-empty and carry a token is split, converted segment by segment
    and rejoined with comma-space. *)
Lemma comma_groups_when_segments_tokenized (this : Plugin) (value : string) :
  isCsvProp this = true ->
  Forall (fun seg => nonEmpty seg = true /\ Str.matchTokens seg <> None)
         (Str.split "," value) ->
  processRuleNode this (RNode (Anonymous value))
  = (s <- Spec.commaGroups this value ;; Ok (RNode (Anonymous s))).
Proof.
  intros Hcsv Hsegs.
  unfold processRuleNode, processRuleNodeWith, Spec.commaGroups. rewrite Hcsv.
  destruct (Str.split "," value) as [|seg segs] eqn:Esplit.
  { destruct value as [|c v]; [discriminate Esplit|]. simpl in Esplit.
    destruct (Ascii.eqb c ","); [discriminate Esplit|].
    destruct (Str.split "," v); discriminate Esplit. }
  rewrite (csvLoop_tokenized _ _ _ _ Hsegs).
  destruct (mapM (Spec.tokenize this) (seg :: segs)) as [ts|] eqn:E; simpl;
    [|reflexivity].
  assert (Hts : Forall (fun t => nonEmpty t = true) ts /\ List.length ts = List.length (seg :: segs)).
  { apply (mapM_Forall (Spec.tokenize this) _ _ _ _
             (fun a b (Ha : nonEmpty a = true /\ Str.matchTokens a <> None) Hb =>
                tokenize_nonEmpty this a b (proj2 Ha) Hb) Hsegs E). }
  destruct Hts as [Hne Hlen].
  destruct ts as [|t ts]; [discriminate Hlen|].
  inversion Hne as [|? ? Ht Hrest]; subst.
  cbn [fold_left]. cbn [nonEmpty append].
  rewrite (glue_join ts t Ht).
  pose proof (join_nonEmpty ", " (t :: ts) ltac:(discriminate) Hne) as Hj.
  destruct (Str.join ", " (t :: ts)); [discriminate Hj|reflexivity].
Qed.

End CommaGroups.

(** ** The conversion function *)

Section Conversion.

Variable this : Plugin.

(** What [parseValueObject] does with the source unit. *)
Lemma parseValueObject_source (value : number) (unitNode : UnitNode) :
  unitOf unitNode = Some (_unit this) ->
  parseValueObject this value unitNode
  = if clamps this value then
      Ok (if ltb (abs value) (_minUnitSize this) then value
          else mul (_minUnitSize this) (signOf value),
          Some (_unit this))
    else
      v <- convertValue this value ;;
      Ok (v, Some (_riUnit this)).
Proof.
  intros Hu. unfold parseValueObject. rewrite Hu, unitEq_refl. reflexivity.
Qed.

Lemma unitOf_setNumerator0 (unitNode : UnitNode) :
  unitOf (setNumerator0 unitNode (unitOf unitNode)) = unitOf unitNode.
Proof.
  destruct unitNode as [[|[[|c s]|] rest] [[|c' s']|]]; reflexivity.
Qed.

(** A unit that is neither the source unit nor the absolute unit leaves
    the scalar as it is. *)
Lemma foreign_unit_identity (v : number) (unitNode : UnitNode) (u : string) :
  unitOf unitNode = Some u ->
  u <> _unit this ->
  u <> _absoluteUnit this ->
  parseValueObject this v unitNode = Ok (v, Some u).
Proof.
  intros Hu Hs Ha. unfold parseValueObject.
  rewrite Hu, (unitEq_neq _ _ Hs), (unitEq_neq _ _ Ha). reflexivity.
Qed.


(** When the configured absolute unit differs from the configured source
    unit, a scalar in the absolute unit keeps its magnitude and is
    relabelled to the source unit. *)
Lemma absolute_unit_relabelled
    (v : number) (unitNode : UnitNode)
    (Hdistinct : _absoluteUnit this <> _unit this)
    (Hunit : unitOf unitNode = Some (_absoluteUnit this)) :
  parseValueObject this v unitNode = Ok (v, Some (_unit this)).
Proof.
  unfold parseValueObject.
  rewrite Hunit, (unitEq_neq _ _ Hdistinct), unitEq_refl. reflexivity.
Qed.

(** C7: for every value v and every unit symbol u that is neither the
    configured source unit nor the configured absolute unit, scalar
    conversion is the identity, convertScalar (v, u) = {value: v,
    unit: u}; consequently converting the scalar node twice equals
    converting it once. *)
Theorem foreign_unit_idempotent
    (v : number) (unitNode : UnitNode) (u : string)
    (Hunit : unitOf unitNode = Some u)
    (Hsrc : u <> _unit this)
    (Habs : u <> _absoluteUnit this) :
  parseValueObject this v unitNode = Ok (v, Some u)
  /\ (once <- updateNode this (Dimension v unitNode) ;; updateNode this once)
     = updateNode this (Dimension v unitNode).
Proof.
  pose proof (foreign_unit_identity v unitNode u Hunit Hsrc Habs) as H1.
  split; [exact H1|].
  simpl. rewrite H1. simpl.
  assert (H2 : unitOf (setNumerator0 unitNode (Some u)) = Some u).
  { rewrite <- Hunit. apply unitOf_setNumerator0. }
  rewrite (foreign_unit_identity v _ u H2 Hsrc Habs). simpl.
  f_equal. f_equal.
  destruct unitNode as [[|h rest] b]; reflexivity.
Qed.

End Conversion.

(** ** Configuration *)

Section Configuration.

Lemma pick_merged {A : Type} (opts : option Options) (field : Options -> option A)
    (get : Plugin -> A) (before after : Plugin) :
  get after = pick opts field (get before) ->
  merged opts field get before after.
Proof.
  intros H. split.
  - intros x [o [-> Hx]]. rewrite H. simpl. rewrite Hx. reflexivity.
  - intros [-> | [o [-> Hx]]]; rewrite H; simpl; [|rewrite Hx]; reflexivity.
Qed.

(** C8: for every partial options object passed to configure, every
    omitted field retains its previous (or default) value, every supplied
    field is overwritten, and afterwards minScaleFactor is
    minSize / baseSize; the defaults are baseSize = 24, riUnit = rem,
    unit = px, absoluteUnit = apx, minUnitSize = 1, minSize = 16,
    precision = 5. *)
Theorem configure_merges_options (this : Plugin) (opts : option Options) :
  let after := configure this opts in
  merged opts baseSize _baseSize this after
  /\ merged opts riUnit _riUnit this after
  /\ merged opts unit _unit this after
  /\ merged opts absoluteUnit _absoluteUnit this after
  /\ merged opts minUnitSize _minUnitSize this after
  /\ merged opts minSize _minSize this after
  /\ merged opts precision _precision this after
  /\ _minScaleFactor after = div (_minSize after) (_baseSize after)
  /\ _baseSize prototype = ofZ 24
  /\ _riUnit prototype = "rem"
  /\ _unit prototype = "px"
  /\ _absoluteUnit prototype = "apx"
  /\ _minUnitSize prototype = ofZ 1
  /\ _minSize prototype = ofZ 16
  /\ _precision prototype = ofZ 5.
Proof.
  cbv zeta.
  repeat match goal with
         | |- merged _ _ _ _ _ /\ _ => split; [apply pick_merged; reflexivity|]
         end.
  repeat split.
Qed.

End Configuration.

(** ** Declarations *)

Section Declarations.

(** C10: for every declaration whose inline flag is truthy,
    visitDeclaration returns normally and leaves the declaration exactly as
    it was: value subtree, property name and every other field.  Only the
    plugin's own record of the current property name changes. *)
Theorem inline_declaration_untouched (this : Plugin) (node : Declaration)
    (Hinline : inline node = true) :
  visitDeclaration this node = Ok (setCurrentPropName this (name node), node).
Proof.
  unfold visitDeclaration. rewrite Hinline. reflexivity.
Qed.

(** Outside the comma-group properties, a text without tokens is left as
    it is. *)
Lemma tokenless_text_unchanged (this : Plugin) (value : string) :
  isCsvProp this = false ->
  Str.matchTokens value = None ->
  processRuleNode this (RNode (Anonymous value)) = Ok (RNode (Anonymous value)).
Proof.
  intros Hcsv Hm. unfold processRuleNode, processRuleNodeWith, parseString.
  rewrite Hcsv, Hm. reflexivity.
Qed.

(** C2: with the default configuration, the string-tokenization rule turns
    "10px solid red" into "0.41667rem solid red": the scan yields the three
    tokens in order, the numeric token is scaled, "solid" and "red" are
    kept verbatim, and the tokens are joined by single spaces. *)
Theorem default_tokens_round_trip :
  Str.matchTokens "10px solid red" = Some ["10px"; "solid"; "red"]
  /\ parseValueString defaultPlugin (JString "10px") = Ok (JString "0.41667rem")
  /\ parseValueString defaultPlugin (JString "solid") = Ok (JString "solid")
  /\ parseValueString defaultPlugin (JString "red") = Ok (JString "red")
  /\ parseString defaultPlugin "10px solid red" None = Ok (Some "0.41667rem solid red")
  /\ defaultPlugin
     = {| _baseSize := ofZ 24; _riUnit := "rem"; _unit := "px"; _absoluteUnit := "apx";
          _minUnitSize := ofZ 1; _minSize := ofZ 16; _precision := ofZ 5;
          _minScaleFactor := div (ofZ 16) (ofZ 24); _currentPropName := None |}.
Proof. repeat split; vm_compute; reflexivity. Qed.

(** C3 at its failing input: a [background] declaration whose text is one
    space has no token, yet its value is replaced by the text
    "undefined"; likewise a blank segment between two lengths becomes
    "undefined". *)
Theorem tokenless_comma_group_becomes_undefined :
  Str.matchTokens " " = None
  /\ visitDeclaration defaultPlugin blankBackground
     = Ok (setCurrentPropName defaultPlugin "background",
           {| name := "background"; inline := false;
              declValue := Anonymous "undefined" |})
  /\ visitDeclaration defaultPlugin
       {| name := "background"; inline := false; declValue := Anonymous "10px, ,5px" |}
     = Ok (setCurrentPropName defaultPlugin "background",
           {| name := "background"; inline := false;
              declValue := Anonymous "0.41667rem, undefined, 0.20833rem" |}).
Proof. repeat split; vm_compute; reflexivity. Qed.

(** C4 at its failing input: with an empty comma segment the whole value
    is tokenized again in place of the segment, where converting the
    segments independently gives an empty middle group. *)
Theorem empty_segment_reparses_whole_value :
  Str.split "," "10px,,5px" = ["10px"; EmptyString; "5px"]
  /\ visitDeclaration defaultPlugin gappedBackground
     = Ok (setCurrentPropName defaultPlugin "background",
           {| name := "background"; inline := false;
              declValue := Anonymous "0.41667rem, 0.41667rem, 0.20833rem" |})
  /\ Spec.commaGroups defaultPlugin "10px,,5px" = Ok "0.41667rem, , 0.20833rem".
Proof. repeat split; vm_compute; reflexivity. Qed.

(** On the specification's own example the code and the comma-group rule
    agree. *)
Example position_pair_converted :
  visitDeclaration defaultPlugin positionPair
  = Ok (setCurrentPropName defaultPlugin "background-position",
        {| name := "background-position"; inline := false;
           declValue := Anonymous "0.41667rem 0.83333rem, 0.20833rem 0.20833rem" |})
  /\ Spec.commaGroups defaultPlugin "10px 20px, 5px 5px"
     = Ok "0.41667rem 0.83333rem, 0.20833rem 0.20833rem".
Proof. split; vm_compute; reflexivity. Qed.

End Declarations.

(** ** Witnesses *)

Lemma foreign_unit_idempotent_witness :
  unitOf emUnit = Some "em"
  /\ "em" <> _unit defaultPlugin
  /\ "em" <> _absoluteUnit defaultPlugin
  /\ parseValueObject defaultPlugin (ofZ 3) emUnit = Ok (ofZ 3, Some "em")
  /\ (once <- updateNode defaultPlugin (Dimension (ofZ 3) emUnit) ;;
      updateNode defaultPlugin once)
     = updateNode defaultPlugin (Dimension (ofZ 3) emUnit).
Proof.
  refine (conj _ (conj _ (conj _
    (foreign_unit_idempotent defaultPlugin (ofZ 3) emUnit "em" _ _ _))));
    solve [vm_compute; reflexivity | vm_compute; discriminate].
Defined.

Lemma inline_declaration_untouched_witness :
  inline inlineMargin = true
  /\ visitDeclaration defaultPlugin inlineMargin
     = Ok (setCurrentPropName defaultPlugin (name inlineMargin), inlineMargin).
Proof.
  refine (conj _ (inline_declaration_untouched defaultPlugin inlineMargin _));
    reflexivity.
Defined.

(** * Further properties *)

(** ** Configuring twice *)

Section Reconfiguration.

Lemma pick_twice {A : Type} (first second : Options) (field : Options -> option A)
    (previous : A) :
  pick (Some second) field (pick (Some first) field previous)
  = orElse (laterWins (field first) (field second)) previous.
Proof.
  unfold pick. destruct (field second), (field first); reflexivity.
Qed.

(** X1: configuring with one options hash and then with another is
    configuring once with the two merged, the later hash winning; the
    derived ratio is that of the merged fields. *)
Theorem configure_twice_is_merged (this : Plugin) (first second : Options) :
  configure (configure this (Some first)) (Some second)
  = configure this (Some (mergeOptions first second)).
Proof.
  unfold configure. cbn [_baseSize _riUnit _unit _absoluteUnit _minUnitSize _minSize
                          _precision _currentPropName].
  rewrite !pick_twice. reflexivity.
Qed.

(** X2: configure is idempotent: applying the same options a second time,
    or applying no options (or an empty hash) to a configured plugin,
    changes nothing. *)
Theorem configure_idempotent (this : Plugin) (opts : option Options) :
  configure (configure this opts) opts = configure this opts
  /\ configure (configure this opts) None = configure this opts
  /\ configure (configure this opts) (Some noOptions) = configure this opts.
Proof.
  repeat split; unfold configure; destruct opts as [o|]; try reflexivity.
  cbn [_baseSize _riUnit _unit _absoluteUnit _minUnitSize _minSize
       _precision _currentPropName pick].
  destruct (baseSize o), (riUnit o), (unit o), (absoluteUnit o), (minUnitSize o),
    (minSize o), (precision o); reflexivity.
Qed.

End Reconfiguration.

(** ** Precision, NaN and a zero base size *)

Section EdgeNumbers.

Variable this : Plugin.

Lemma toFixed_valid (x p : number) :
  validPrecision p = true ->
  toFixed x p
  = match x with
    | S754_nan | S754_infinity _ => Ok (toString x)
    | S754_zero _ => Ok (fixedDigits 0 (digitsOfPrecision p))
    | S754_finite s m e =>
        if atLeast1e21 m e then Ok (Chars.signText s ++ toStringPositive m e)
        else Ok (Chars.signText s
                 ++ fixedDigits (roundScaled m e (N.of_nat (digitsOfPrecision p)))
                                (digitsOfPrecision p))
    end.
Proof.
  unfold validPrecision, digitsOfPrecision, toFixed.
  destruct (ToIntegerOrInfinity p) as [f|]; [|discriminate].
  intros H. apply andb_prop in H as [H0 H100].
  apply Z.leb_le in H0. apply Z.leb_le in H100.
  replace ((f <? 0)%Z || (100 <? f)%Z) with false
    by (symmetry; apply orb_false_intro; apply Z.ltb_ge; lia).
  rewrite Z_nat_N. reflexivity.
Qed.

Lemma toFixed_invalid (x p : number) :
  validPrecision p = false -> toFixed x p = Throw RangeError.
Proof.
  unfold validPrecision, toFixed.
  destruct (ToIntegerOrInfinity p) as [f|]; [|reflexivity].
  intros H. apply andb_false_iff in H.
  replace ((f <? 0)%Z || (100 <? f)%Z) with true; [reflexivity|].
  symmetry. apply orb_true_iff.
  destruct H as [H|H]; [left|right]; apply Z.ltb_lt; apply Z.leb_gt in H; exact H.
Qed.

Lemma toFixed_total (x p : number) :
  validPrecision p = true -> exists s, toFixed x p = Ok s.
Proof.
  intros H. rewrite (toFixed_valid x p H).
  destruct x as [s|s| |s m e]; try (eexists; reflexivity).
  destruct (atLeast1e21 m e); eexists; reflexivity.
Qed.

(** X3: with a precision that fixed notation refuses (not an integer part
    between 0 and 100) every scaling raises RangeError, whatever the
    value, while a value that is clamped is still converted. *)
Theorem invalid_precision_raises (v : number) (unitNode : UnitNode)
    (Hprec : validPrecision (_precision this) = false)
    (Hunit : unitOf unitNode = Some (_unit this)) :
  convertValue this v = Throw RangeError
  /\ (clamps this v = false -> parseValueObject this v unitNode = Throw RangeError)
  /\ (clamps this v = true -> exists r, parseValueObject this v unitNode = Ok r).
Proof.
  assert (Hc : convertValue this v = Throw RangeError).
  { unfold convertValue. rewrite (toFixed_invalid _ _ Hprec). reflexivity. }
  split; [exact Hc|].
  rewrite (parseValueObject_source this v unitNode Hunit).
  split; intros ->; [rewrite Hc; reflexivity | eexists; reflexivity].
Qed.


(** X5: a base size of zero is not refused.  When the ratio was derived
    from a zero base size and a finite non-zero minimum size, every finite
    non-zero length in the source unit becomes an infinity in riUnit, with
    the sign of the length (reversed for a negative zero), and a zero
    length becomes NaN in riUnit. *)
Theorem zero_base_size_gives_infinity
    (s sb sm : bool) (m mm : positive) (e em : Z) (unitNode : UnitNode)
    (Hbase : _baseSize this = S754_zero sb)
    (Hmin : _minSize this = S754_finite sm mm em)
    (Hratio : _minScaleFactor this = div (_minSize this) (_baseSize this))
    (Hfloor : finiteNumber (_minUnitSize this) = true)
    (Hprec : validPrecision (_precision this) = true)
    (Hunit : unitOf unitNode = Some (_unit this)) :
  parseValueObject this (S754_finite s m e) unitNode
  = Ok (S754_infinity (xorb s sb), Some (_riUnit this))
  /\ parseValueObject this (S754_zero s) unitNode = Ok (NaN, Some (_riUnit this)).
Proof.
  split.
  2:{ rewrite (parseValueObject_source this _ unitNode Hunit).
      unfold clamps. cbv zeta. rewrite zero_never_scales. cbn [andb].
      unfold convertValue. rewrite Hbase.
      change (div (S754_zero s) (S754_zero sb)) with NaN.
      rewrite (toFixed_valid _ _ Hprec). reflexivity. }
  rewrite (parseValueObject_source this _ unitNode Hunit).
  unfold clamps. rewrite Hratio, Hbase, Hmin. cbv zeta.
  change (mul (S754_finite s m e) (div (S754_finite sm mm em) (S754_zero sb)))
    with (S754_infinity (xorb s (xorb sm sb))).
  cbn [abs SFabs ToBoolean andb].
  assert (Hleb : leb (S754_infinity false) (_minUnitSize this) = false).
  { destruct (_minUnitSize this); try discriminate Hfloor; reflexivity. }
  rewrite Hleb. unfold convertValue. rewrite Hbase.
  change (div (S754_finite s m e) (S754_zero sb)) with (S754_infinity (xorb s sb)).
  rewrite (toFixed_valid _ _ Hprec). destruct (xorb s sb); reflexivity.
Qed.

(** X6: converting a scalar node touches position 0 of the numerator list
    only: the rest of the list and the fallback symbol are kept.  A scalar
    without any unit keeps its magnitude, and its numerator list, even an
    empty one, afterwards starts with undefined. *)
Theorem scalar_unit_descriptor_frame (v : number) (unitNode : UnitNode) :
  (forall n', updateNode this (Dimension v unitNode) = Ok n' ->
     exists v' h,
       n' = Dimension v' {| numerator := h :: tl (numerator unitNode);
                            backupUnit := backupUnit unitNode |})
  /\ (unitOf unitNode = None ->
      updateNode this (Dimension v unitNode)
      = Ok (Dimension v {| numerator := None :: tl (numerator unitNode);
                           backupUnit := backupUnit unitNode |})).
Proof.
  split.
  - cbn [updateNode]. destruct (parseValueObject this v unitNode) as [[v' u]|];
      simpl; [|discriminate].
    intros n' H. injection H as <-. exists v', u.
    unfold setNumerator0. destruct (numerator unitNode); reflexivity.
  - intros Hu. cbn [updateNode]. unfold parseValueObject. rewrite Hu. simpl.
    unfold setNumerator0. destruct (numerator unitNode); reflexivity.
Qed.

End EdgeNumbers.

(** ** The tree walk *)

Section TreeWalk.

Variable this : Plugin.

(** Induction over value trees, with the property available for every
    argument and every list element. *)
Lemma node_induction (P : node -> Prop) :
  (forall name args, Forall P args -> P (Call name args)) ->
  (forall value unitNode, P (Dimension value unitNode)) ->
  (forall value, P (Anonymous value)) ->
  (forall value, Forall P value -> P (Expression value)) ->
  forall n, P n.
Proof.
  intros HCall HDim HAnon HExpr.
  fix IH 1. intros [name args|value unitNode|value|value].
  - apply HCall. induction args as [|a args IHargs]; constructor; [apply IH|exact IHargs].
  - apply HDim.
  - apply HAnon.
  - apply HExpr. induction value as [|a l IHl]; constructor; [apply IH|exact IHl].
Qed.

(** The loop inside [updateNode] is [processRuleNodes]. *)
Lemma updateNode_Expression (value : list node) :
  updateNode this (Expression value)
  = (value' <- processRuleNodes this value ;;
     v <- parseValueString this (JArray value') ;;
     Ok (withValue (Expression value') v)).
Proof.
  cbn [updateNode]. unfold processRuleNodes.
  match goal with
  | |- bind (?f value) _ = _ =>
      assert (H : forall l, f l = mapM (processRuleNodeWith (updateNode this) this) l)
  end.
  { induction l as [|a l IHl]; [reflexivity|]. cbn [mapM]. rewrite <- IHl. reflexivity. }
  rewrite H. reflexivity.
Qed.

Lemma mapM_total {A B : Type} (f : A -> result B) (l : list A) :
  Forall (fun a => exists b, f a = Ok b) l -> exists l', mapM f l = Ok l'.
Proof.
  induction 1 as [|a l [b Hb] _ [l' Hl']]; [eexists; reflexivity|].
  cbn [mapM]. rewrite Hb, Hl'. eexists. reflexivity.
Qed.

Lemma convertValue_total (v : number) :
  validPrecision (_precision this) = true -> exists r, convertValue this v = Ok r.
Proof.
  intros H. unfold convertValue.
  destruct (toFixed_total (div v (_baseSize this)) _ H) as [s ->].
  eexists. reflexivity.
Qed.

Lemma parseValueObject_total (v : number) (unitNode : UnitNode) :
  validPrecision (_precision this) = true ->
  exists r, parseValueObject this v unitNode = Ok r.
Proof.
  intros H. unfold parseValueObject.
  destruct (unitEq _ (_unit this)).
  - cbv zeta. destruct (_ && _); [eexists; reflexivity|].
    destruct (convertValue_total v H) as [r ->]. eexists. reflexivity.
  - destruct (unitEq _ _); eexists; reflexivity.
Qed.

Lemma parseValueString_total (value : jsval) :
  validPrecision (_precision this) = true ->
  exists r, parseValueString this value = Ok r.
Proof.
  intros H. unfold parseValueString.
  destruct (hasSuffix value (_absoluteUnit this)); [eexists; reflexivity|].
  destruct (hasSuffix value (_unit this)); [|eexists; reflexivity].
  cbv zeta. destruct (_ && _).
  - destruct (ltb _ _); eexists; reflexivity.
  - destruct (convertValue_total (parseFloat (jsToString value)) H) as [r ->].
    eexists. reflexivity.
Qed.

Lemma parseString_total (ruleNodeValue : string) (stringValues : option string) :
  validPrecision (_precision this) = true ->
  exists r, parseString this ruleNodeValue stringValues = Ok r.
Proof.
  intros H. unfold parseString.
  destruct (Str.matchTokens _) as [toks|]; [|eexists; reflexivity].
  destruct (mapM_total (fun tok => parseValueString this (JString tok)) toks) as [l ->].
  - apply Forall_forall. intros tok _. apply parseValueString_total, H.
  - eexists. reflexivity.
Qed.

Lemma csvLoop_total (ruleNodeValue : string) (segments : list string) (acc : string) :
  validPrecision (_precision this) = true ->
  exists r, csvLoop this ruleNodeValue segments acc = Ok r.
Proof.
  intros H. revert acc. induction segments as [|seg segs IH]; intros acc.
  - eexists. reflexivity.
  - cbn [csvLoop].
    destruct (parseString_total ruleNodeValue (Some seg) H) as [r ->]. apply IH.
Qed.

Lemma walk_total (n : node) :
  validPrecision (_precision this) = true ->
  (exists n', updateNode this n = Ok n')
  /\ (exists n', processRuleNodeWith (updateNode this) this n = Ok n').
Proof.
  intros H. induction n as [name args IH|value unitNode|value|value IH]
    using node_induction.
  - split.
    + cbn [updateNode]. eexists. reflexivity.
    + cbn [processRuleNodeWith].
      destruct (mapM_total (updateNode this) args) as [args' ->].
      * eapply Forall_impl; [|exact IH]. intros a [Ha _]. exact Ha.
      * eexists. reflexivity.
  - assert (Hu : exists n', updateNode this (Dimension value unitNode) = Ok n').
    { cbn [updateNode].
      destruct (parseValueObject_total value unitNode H) as [r ->].
      eexists. reflexivity. }
    split; exact Hu.
  - split.
    + cbn [updateNode].
      destruct (parseValueString_total (JString value) H) as [r ->].
      eexists. reflexivity.
    + cbn [processRuleNodeWith].
      assert (Hp : exists r,
        match (if isCsvProp this then Some (Str.split "," value) else None) with
        | Some ((_ :: _) as segments) =>
            s <- csvLoop this value segments EmptyString ;; Ok (Some s)
        | _ => parseString this value None
        end = Ok r).
      { destruct (isCsvProp this); [|apply parseString_total, H].
        destruct (Str.split "," value) as [|seg segs]; [apply parseString_total, H|].
        destruct (csvLoop_total value (seg :: segs) EmptyString H) as [r ->].
        eexists. reflexivity. }
      destruct Hp as [r ->]. cbn [bind].
      destruct r as [[|c s]|]; eexists; reflexivity.
  - assert (Hu : exists n', updateNode this (Expression value) = Ok n').
    { rewrite updateNode_Expression. unfold processRuleNodes.
      destruct (mapM_total (processRuleNodeWith (updateNode this) this) value)
        as [value' ->].
      - eapply Forall_impl; [|exact IH]. intros a [_ Ha]. exact Ha.
      - cbn [bind].
        destruct (parseValueString_total (JArray value') H) as [r ->].
        eexists. reflexivity. }
    split; exact Hu.
Qed.

End TreeWalk.

(** X7: with a precision that fixed notation accepts, nothing in the walk
    raises: visitDeclaration (and its alias visitRule) returns for every
    declaration, whatever its value tree, and so does processRuleNodes for
    every list of nodes. *)
Theorem walk_never_raises (this : Plugin) (decl : Declaration) (ruleNodes : list node)
    (Hprec : validPrecision (_precision this) = true) :
  (exists this' node', visitDeclaration this decl = Ok (this', node'))
  /\ (exists this' node', visitRule this decl = Ok (this', node'))
  /\ (exists ruleNodes', processRuleNodes this ruleNodes = Ok ruleNodes').
Proof.
  assert (Hv : exists this' node', visitDeclaration this decl = Ok (this', node')).
  { unfold visitDeclaration, processRuleNode.
    destruct (inline decl); [do 2 eexists; reflexivity|].
    destruct (walk_total (setCurrentPropName this (name decl)) (declValue decl) Hprec)
      as [_ [n' ->]].
    do 2 eexists. reflexivity. }
  split; [exact Hv|]. split; [exact Hv|].
  unfold processRuleNodes. apply mapM_total.
  apply Forall_forall. intros n _. apply (walk_total this n Hprec).
Qed.

(** ** The shape of the value tree *)

Section Shape.

Variable this : Plugin.

Lemma lastChar_cons (c x : ascii) (s : string) :
  lastChar s = Some x -> lastChar (String c s) = Some x.
Proof. destruct s; [discriminate|]. intros H. exact H. Qed.

Lemma lastChar_app (a b : string) (x : ascii) :
  lastChar b = Some x -> lastChar (a ++ b) = Some x.
Proof.
  intros H. induction a as [|c a IH]; [exact H|].
  cbn [append]. apply lastChar_cons. exact IH.
Qed.

Lemma lastChar_drop (k : nat) (s : string) :
  k < length s -> lastChar (Chars.drop k s) = lastChar s.
Proof.
  revert s. induction k as [|k IH]; intros [|c s] H; try reflexivity.
  cbn [Chars.drop]. simpl in H. rewrite IH by lia.
  destruct s; [simpl in H; lia|reflexivity].
Qed.

Lemma lastChar_objects (l : list node) :
  l <> [] ->
  lastChar (Str.join "," (map (fun _ : node => "[object Object]") l)) = Some "]"%char.
Proof.
  induction l as [|a l IH]; [congruence|]. intros _.
  destruct l as [|b l]; [reflexivity|].
  cbn [map Str.join] in *. apply lastChar_app. apply lastChar_app.
  apply IH. discriminate.
Qed.

(** The printed form of an array of nodes never ends with a plain unit. *)
Lemma array_not_suffixed (l : list node) (u : string) :
  plainUnit u = true -> hasSuffix (JArray l) u = false.
Proof.
  unfold plainUnit, hasSuffix. cbn [truthy andb jsToString].
  destruct (lastChar u) as [c|] eqn:Hc; [|discriminate].
  intros Hne. apply String.eqb_neq. intros Heq.
  assert (Hl : lastChar (Str.sliceLast (length u)
                 (Str.join "," (map (fun _ : node => "[object Object]") l))) = Some c)
    by (rewrite Heq; exact Hc).
  destruct u as [|c0 u]; [discriminate Hc|].
  cbn [length Str.sliceLast] in Hl.
  destruct l as [|a l].
  - discriminate Hl.
  - pose proof (lastChar_objects (a :: l) ltac:(discriminate)) as Ho.
    set (s := Str.join "," (map (fun _ : node => "[object Object]") (a :: l))) in *.
    assert (Hlen : 0 < length s) by (destruct s; [discriminate Ho|simpl; lia]).
    rewrite lastChar_drop in Hl by lia.
    rewrite Ho in Hl. injection Hl as <-. discriminate Hne.
Qed.

Lemma parseValueString_array (l : list node) :
  plainUnit (_unit this) = true ->
  plainUnit (_absoluteUnit this) = true ->
  parseValueString this (JArray l) = Ok (JArray l).
Proof.
  intros Hu Ha. unfold parseValueString.
  rewrite (array_not_suffixed l _ Ha), (array_not_suffixed l _ Hu). reflexivity.
Qed.

Lemma parseValueString_text (s : string) (v : jsval) :
  parseValueString this (JString s) = Ok v -> exists s', v = JString s'.
Proof.
  unfold parseValueString.
  destruct (hasSuffix _ (_absoluteUnit this)).
  { intros H. injection H as <-. eexists. reflexivity. }
  destruct (hasSuffix _ (_unit this)).
  2:{ intros H. injection H as <-. eexists. reflexivity. }
  cbv zeta. destruct (_ && _).
  - destruct (ltb _ _); intros H; injection H as <-; eexists; reflexivity.
  - destruct (convertValue _ _); simpl; [|discriminate].
    intros H. injection H as <-. eexists. reflexivity.
Qed.

Lemma forall2b_refl (l : list node) :
  Forall (fun n => sameShape n n = true) l -> forall2b sameShape l l = true.
Proof.
  induction 1 as [|a l Ha _ IH]; [reflexivity|]. cbn [forall2b]. rewrite Ha, IH. reflexivity.
Qed.

Lemma sameShape_refl (n : node) : sameShape n n = true.
Proof.
  induction n as [name args IH|value unitNode|value|value IH] using node_induction;
    cbn [sameShape]; try reflexivity.
  - rewrite String.eqb_refl, (forall2b_refl _ IH). reflexivity.
  - apply forall2b_refl, IH.
Qed.

Lemma mapM_forall2b (f : node -> result node) (l l' : list node) :
  Forall (fun a => forall b, f a = Ok b -> sameShape a b = true) l ->
  mapM f l = Ok l' -> forall2b sameShape l l' = true.
Proof.
  intros H. revert l'. induction H as [|a l Ha _ IH]; intros l'; cbn [mapM].
  - intros E. injection E as <-. reflexivity.
  - destruct (f a) as [b|] eqn:Eb; [|discriminate]. cbn [bind].
    destruct (mapM f l) as [bs|]; [|discriminate]. cbn [bind].
    intros E. injection E as <-. cbn [forall2b].
    rewrite (Ha b eq_refl), (IH bs eq_refl). reflexivity.
Qed.

Lemma walk_keeps_node_shape (n : node) :
  plainUnit (_unit this) = true ->
  plainUnit (_absoluteUnit this) = true ->
  (forall n', updateNode this n = Ok n' -> sameShape n n' = true)
  /\ (forall n', processRuleNodeWith (updateNode this) this n = Ok n' ->
      sameShape n n' = true).
Proof.
  intros Hu Ha. induction n as [name args IH|value unitNode|value|value IH]
    using node_induction.
  - split; intros n'.
    + cbn [updateNode]. intros H. injection H as <-. apply sameShape_refl.
    + cbn [processRuleNodeWith].
      destruct (mapM (updateNode this) args) as [args'|] eqn:E; [|discriminate].
      cbn [bind]. intros H. injection H as <-. cbn [sameShape].
      rewrite String.eqb_refl. cbn [andb].
      apply (mapM_forall2b (updateNode this)); [|exact E].
      eapply Forall_impl; [|exact IH]. intros a [H1 _]. exact H1.
  - assert (H : forall n', updateNode this (Dimension value unitNode) = Ok n' ->
                           sameShape (Dimension value unitNode) n' = true).
    { intros n'. cbn [updateNode].
      destruct (parseValueObject this value unitNode); [|discriminate].
      cbn [bind]. intros E. injection E as <-. reflexivity. }
    split; exact H.
  - split; intros n'.
    + cbn [updateNode].
      destruct (parseValueString this (JString value)) as [v|] eqn:E; [|discriminate].
      destruct (parseValueString_text _ _ E) as [s' ->].
      cbn [bind withValue]. intros H. injection H as <-. reflexivity.
    + cbn [processRuleNodeWith].
      match goal with
      | |- bind ?c _ = _ -> _ => destruct c as [[[|c0 s0]|]|]
      end; cbn [bind]; try discriminate; intros H; injection H as <-; reflexivity.
  - assert (H : forall n', updateNode this (Expression value) = Ok n' ->
                           sameShape (Expression value) n' = true).
    { intros n'. rewrite updateNode_Expression. unfold processRuleNodes.
      destruct (mapM _ value) as [value'|] eqn:E; [|discriminate]. cbn [bind].
      rewrite (parseValueString_array value' Hu Ha). cbn [bind withValue].
      intros H. injection H as <-. cbn [sameShape].
      apply (mapM_forall2b (processRuleNodeWith (updateNode this) this)); [|exact E].
      eapply Forall_impl; [|exact IH]. intros a [_ H2]. exact H2. }
    split; exact H.
Qed.

End Shape.

(** X8: the walk changes magnitudes, units and texts, never the shape of
    the tree.  When neither configured unit is empty or ends in a closing
    bracket, a declaration that visitDeclaration returns has the same
    property name and inline flag, and a value tree with the same kind of
    node at every place, the same function names and the same numbers of
    arguments and list elements; of the plugin only the current property
    name is set. *)
Theorem walk_keeps_shape (this this' : Plugin) (decl decl' : Declaration)
    (Hunit : plainUnit (_unit this) = true)
    (Habs : plainUnit (_absoluteUnit this) = true)
    (Hrun : visitDeclaration this decl = Ok (this', decl')) :
  name decl' = name decl
  /\ inline decl' = inline decl
  /\ sameShape (declValue decl) (declValue decl') = true
  /\ this' = setCurrentPropName this (name decl).
Proof.
  unfold visitDeclaration, processRuleNode in Hrun.
  destruct (inline decl) eqn:Hi.
  - cbn [bind] in Hrun. injection Hrun as <- <-.
    repeat split; [exact Hi|apply sameShape_refl].
  - destruct (processRuleNodeWith _ _ (declValue decl)) as [n'|] eqn:E;
      [|discriminate Hrun].
    cbn [bind] in Hrun. injection Hrun as <- <-. cbn [name inline declValue].
    repeat split.
    apply (walk_keeps_node_shape (setCurrentPropName this (name decl)) (declValue decl)
             Hunit Habs); exact E.
Qed.

Lemma walk_keeps_shape_witness :
  plainUnit (_unit defaultPlugin) = true
  /\ plainUnit (_absoluteUnit defaultPlugin) = true
  /\ visitDeclaration defaultPlugin borderDeclaration
     = Ok (setCurrentPropName defaultPlugin "border", borderConverted)
  /\ name borderConverted = name borderDeclaration
  /\ inline borderConverted = inline borderDeclaration
  /\ sameShape (declValue borderDeclaration) (declValue borderConverted) = true
  /\ setCurrentPropName defaultPlugin "border"
     = setCurrentPropName defaultPlugin (name borderDeclaration).
Proof.
  refine (conj _ (conj _ (conj _
    (walk_keeps_shape defaultPlugin (setCurrentPropName defaultPlugin "border")
       borderDeclaration borderConverted _ _ _))));
    vm_compute; reflexivity.
Defined.

(** ** What the scan finds *)

Section Tokens.

Import Chars.

Lemma blank_not_digit (c : ascii) : blankChar c = true -> isDigit c = false.
Proof.
  destruct (isDigit c) eqn:Hd; [|reflexivity].
  destruct (digit_is_plain c Hd) as (_ & _ & Hs & _).
  unfold blankChar. rewrite Hs. cbn [orb]. intros Hb.
  destruct c as [[] [] [] [] [] [] [] []]; cbv in Hb; try discriminate Hb;
    cbv in Hd; discriminate Hd.
Qed.

Lemma wordChar_blank (c : ascii) : Str.wordChar c = negb (blankChar c).
Proof. unfold Str.wordChar, blankChar. rewrite negb_orb. reflexivity. Qed.

Lemma span_all (p : ascii -> bool) (s a b : string) :
  span p s = (a, b) -> allChars p a = true.
Proof.
  revert a b. induction s as [|c s IH]; cbn [span]; intros a b H.
  - injection H as <- <-. reflexivity.
  - destruct (p c) eqn:Hc.
    + destruct (span p s) as [a' b'] eqn:E. injection H as <- <-.
      cbn [allChars]. rewrite Hc, (IH a' b' eq_refl). reflexivity.
    + injection H as <- <-. reflexivity.
Qed.

Lemma span_suffix_all (p q : ascii -> bool) (s a b : string) :
  allChars q s = true -> span p s = (a, b) -> allChars q b = true.
Proof.
  revert a b. induction s as [|c s IH]; cbn [span]; intros a b Hq H.
  - injection H as <- <-. reflexivity.
  - destruct (p c).
    + destruct (span p s) as [a' b'] eqn:E. injection H as <- <-.
      cbn [allChars] in Hq. apply andb_prop in Hq as [_ Hq]. exact (IH a' b' Hq eq_refl).
    + injection H as <- <-. exact Hq.
Qed.

Lemma allChars_app (p : ascii -> bool) (a b : string) :
  allChars p (a ++ b) = allChars p a && allChars p b.
Proof.
  induction a as [|c a IH]; [reflexivity|]. cbn [append allChars].
  rewrite IH. apply andb_assoc.
Qed.

Lemma allChars_impl (p q : ascii -> bool) (s : string) :
  (forall c, p c = true -> q c = true) -> allChars p s = true -> allChars q s = true.
Proof.
  intros Hpq. induction s as [|c s IH]; [reflexivity|]. cbn [allChars].
  intros H. apply andb_prop in H as [Hc Hs]. rewrite (Hpq c Hc), (IH Hs). reflexivity.
Qed.

Lemma span_blank_word (s : string) :
  allChars blankChar s = true -> span Str.wordChar s = (EmptyString, s).
Proof.
  destruct s as [|c s]; [reflexivity|]. cbn [allChars span].
  intros H. apply andb_prop in H as [Hc _].
  rewrite wordChar_blank, Hc. reflexivity.
Qed.

Lemma matchAt_blank (s : string) :
  allChars blankChar s = true -> Str.matchAt s = None.
Proof.
  intros H. unfold Str.matchAt, Str.matchNumber, Str.matchWord.
  assert (Hd : span isDigit s = (EmptyString, s)).
  { destruct s as [|c s]; [reflexivity|]. cbn [allChars] in H.
    apply andb_prop in H as [Hc _]. cbn [span]. rewrite (blank_not_digit c Hc). reflexivity. }
  rewrite Hd.
  destruct (span Str.isBang s) as [b r] eqn:Eb.
  rewrite (span_blank_word r (span_suffix_all _ _ _ _ _ H Eb)). reflexivity.
Qed.

Lemma scan_blank (fuel : nat) (s : string) :
  allChars blankChar s = true -> Str.scan fuel s = [].
Proof.
  revert s. induction fuel as [|fuel IH]; intros s H; [reflexivity|].
  destruct s as [|c s]; [reflexivity|]. cbn [Str.scan].
  rewrite (matchAt_blank _ H). apply IH.
  cbn [allChars] in H. apply andb_prop in H as [_ H]. exact H.
Qed.

Lemma matchAt_word (c : ascii) (s : string) :
  blankChar c = false -> Str.matchAt (String c s) <> None.
Proof.
  intros Hc. unfold Str.matchAt.
  destruct (Str.matchNumber (String c s)); [discriminate|].
  unfold Str.matchWord. cbn [span].
  assert (Hb : Str.isBang c = false).
  { unfold blankChar in Hc. apply orb_false_iff in Hc as [_ Hc]. exact Hc. }
  rewrite Hb. cbn [span]. rewrite wordChar_blank, Hc. cbn [negb].
  destruct (span Str.wordChar s). discriminate.
Qed.

Lemma scan_word (fuel : nat) (s : string) :
  length s <= fuel -> allChars blankChar s = false -> Str.scan fuel s <> [].
Proof.
  revert s. induction fuel as [|fuel IH]; intros [|c s] Hlen H;
    try discriminate H; [simpl in Hlen; lia|].
  cbn [Str.scan].
  destruct (Str.matchAt (String c s)) as [[tok rest]|] eqn:E; [discriminate|].
  cbn [allChars] in H.
  destruct (blankChar c) eqn:Hc; [|exfalso; exact (matchAt_word c s Hc E)].
  apply IH; [simpl in Hlen; lia|exact H].
Qed.

(** X9: the scan yields no token exactly when the text consists of white
    space and exclamation marks only (the empty text included). *)
Theorem no_token_iff_blank (s : string) :
  Str.matchTokens s = None <-> allChars blankChar s = true.
Proof.
  unfold Str.matchTokens. split.
  - intros H. destruct (allChars blankChar s) eqn:Hb; [reflexivity|].
    pose proof (scan_word (length s) s (le_n _) Hb) as Hne.
    destruct (Str.scan (length s) s); [congruence|discriminate H].
  - intros H. rewrite (scan_blank _ _ H). reflexivity.
Qed.

Lemma matchAt_token_plain (s tok rest : string) :
  Str.matchAt s = Some (tok, rest) -> allChars notSpace tok = true.
Proof.
  assert (Hdig : forall c, isDigit c = true -> notSpace c = true).
  { intros c Hc. destruct (digit_is_plain c Hc) as (_ & _ & Hs & _).
    unfold notSpace. rewrite Hs. reflexivity. }
  assert (Hunit : forall c, Str.unitChar c = true -> notSpace c = true).
  { intros c Hc. unfold Str.unitChar in Hc.
    apply andb_prop in Hc as [Hc _]. apply andb_prop in Hc as [Hc _]. exact Hc. }
  assert (Hword : forall c, Str.wordChar c = true -> notSpace c = true).
  { intros c Hc. unfold Str.wordChar in Hc. apply andb_prop in Hc as [Hc _]. exact Hc. }
  assert (Hbang : forall c, Str.isBang c = true -> notSpace c = true).
  { intros c Hc. apply Ascii.eqb_eq in Hc. subst c. reflexivity. }
  assert (Hw : forall m, Str.matchWord s = Some m -> allChars notSpace (fst m) = true).
  { unfold Str.matchWord. intros m.
    destruct (span Str.isBang s) as [b r] eqn:Eb.
    destruct (span Str.wordChar r) as [w r'] eqn:Ew.
    destruct w as [|c w]; [discriminate|]. intros H. injection H as <-.
    cbn [fst]. rewrite allChars_app.
    rewrite (allChars_impl _ _ _ Hbang (span_all _ _ _ _ Eb)).
    rewrite (allChars_impl _ _ _ Hword (span_all _ _ _ _ Ew)). reflexivity. }
  unfold Str.matchAt, Str.matchNumber.
  destruct (span isDigit s) as [d1 r1] eqn:E1.
  pose proof (allChars_impl _ _ _ Hdig (span_all _ _ _ _ E1)) as Hd1.
  destruct d1 as [|c0 d1']; [intros H; exact (Hw _ H)|].
  match goal with
  | |- match match ?v with Some _ => _ | None => _ end with _ => _ end = _ -> _ =>
      destruct v as [[t r]|] eqn:Ev
  end.
  - intros H. injection H as <- <-.
    destruct r1 as [|c r2]; [discriminate|].
    destruct (Str.isDot c) eqn:Hdot; [|discriminate].
    destruct (span isDigit r2) as [d2 r3] eqn:E2.
    pose proof (allChars_impl _ _ _ Hdig (span_all _ _ _ _ E2)) as Hd2.
    destruct d2 as [|c2 d2']; [discriminate|].
    destruct (span Str.unitChar r3) as [u r4] eqn:E3.
    pose proof (allChars_impl _ _ _ Hunit (span_all _ _ _ _ E3)) as Hu.
    injection Ev as <- <-.
    assert (G : allChars notSpace (String c0 d1' ++ String c (String c2 d2') ++ u) = true).
    { rewrite !allChars_app, Hd1, Hu.
      change (allChars notSpace (String c (String c2 d2')))
        with (notSpace c && allChars notSpace (String c2 d2')).
      rewrite Hd2. apply Ascii.eqb_eq in Hdot. subst c. reflexivity. }
    exact G.
  - destruct d1' as [|c1 d1'']; [intros H; exact (Hw _ H)|].
    destruct (span Str.unitChar r1) as [u r2] eqn:E3.
    pose proof (allChars_impl _ _ _ Hunit (span_all _ _ _ _ E3)) as Hu.
    intros H. injection H as <- <-.
    assert (G : allChars notSpace (String c0 (String c1 d1'') ++ u) = true)
      by (rewrite allChars_app, Hd1, Hu; reflexivity).
    exact G.
Qed.

(** X10: every token of the scan is non-empty and free of white space,
    whatever the text. *)
Theorem tokens_are_plain (s : string) (tokens : list string)
    (Hscan : Str.matchTokens s = Some tokens) :
  tokens <> []
  /\ Forall (fun tok => nonEmpty tok = true /\ allChars notSpace tok = true) tokens.
Proof.
  unfold Str.matchTokens in Hscan.
  assert (H : forall fuel t,
    Forall (fun tok => nonEmpty tok = true /\ allChars notSpace tok = true)
           (Str.scan fuel t)).
  { induction fuel as [|fuel IH]; intros t; cbn [Str.scan]; [constructor|].
    destruct t as [|c t]; [constructor|].
    destruct (Str.matchAt (String c t)) as [[tok rest]|] eqn:E; [|apply IH].
    constructor; [|apply IH].
    split; [exact (matchAt_token_nonEmpty _ _ _ E)|exact (matchAt_token_plain _ _ _ E)]. }
  specialize (H (length s) s).
  destruct (Str.scan (length s) s) as [|tok toks]; [discriminate Hscan|].
  injection Hscan as <-. split; [discriminate|exact H].
Qed.

End Tokens.

(** ** Texts without convertible tokens *)

Section InertText.

Variable this : Plugin.

Lemma inert_unchanged (token : string) :
  inert this token = true -> parseValueString this (JString token) = Ok (JString token).
Proof.
  unfold inert, parseValueString. intros H. apply andb_prop in H as [Ha Hu].
  apply negb_true_iff in Ha. apply negb_true_iff in Hu. rewrite Ha, Hu. reflexivity.
Qed.

Lemma mapM_inert (tokens : list string) :
  forallb (inert this) tokens = true ->
  mapM (fun tok => parseValueString this (JString tok)) tokens = Ok (map JString tokens).
Proof.
  induction tokens as [|tok toks IH]; [reflexivity|]. cbn [forallb mapM map].
  intros H. apply andb_prop in H as [Ht Hts].
  rewrite (inert_unchanged tok Ht), (IH Hts). reflexivity.
Qed.

Lemma map_joinItem_JString (tokens : list string) :
  map joinItem (map JString tokens) = tokens.
Proof. induction tokens as [|t ts IH]; [reflexivity|]. cbn [map]. rewrite IH. reflexivity. Qed.

(** X11: outside the comma-group properties, a text in which the scan
    finds tokens, none of them ending in the source unit or in the
    absolute unit, is replaced by those tokens, verbatim and in order,
    joined by single spaces.  Nothing of the text between the tokens is
    kept: runs of white space become one space, and an exclamation mark
    that the scan leaves out of every token is lost. *)
Theorem inert_text_is_its_tokens (value : string) (tokens : list string)
    (Hprop : isCsvProp this = false)
    (Hscan : Str.matchTokens value = Some tokens)
    (Hinert : forallb (inert this) tokens = true) :
  parseString this value None = Ok (Some (Str.join " " tokens))
  /\ processRuleNode this (RNode (Anonymous value))
     = Ok (RNode (Anonymous (Str.join " " tokens))).
Proof.
  assert (Hp : parseString this value None = Ok (Some (Str.join " " tokens))).
  { unfold parseString. rewrite Hscan, (mapM_inert tokens Hinert). cbn [bind].
    rewrite map_joinItem_JString. reflexivity. }
  split; [exact Hp|].
  unfold processRuleNode, processRuleNodeWith. rewrite Hprop, Hp. cbn [bind].
  assert (Hne : nonEmpty (Str.join " " tokens) = true).
  { unfold Str.matchTokens in Hscan.
    pose proof (scan_tokens_nonEmpty (length value) value) as Hall.
    destruct (Str.scan (length value) value) as [|t ts]; [discriminate Hscan|].
    injection Hscan as <-. apply join_nonEmpty; [discriminate|exact Hall]. }
  destruct (Str.join " " tokens); [discriminate Hne|reflexivity].
Qed.

End InertText.

(** ** Negating a length *)

Section Negation.

Variable this : Plugin.

Lemma round_aux_opp (s : bool) (mx ex : Z) (lx : location) :
  SFopp (binary_round_aux prec emax s mx ex lx)
  = binary_round_aux prec emax (negb s) mx ex lx.
Proof.
  unfold binary_round_aux.
  destruct (shr_fexp prec emax mx ex lx) as [mrs' e'].
  destruct (shr_fexp prec emax _ e' loc_Exact) as [mrs'' e''].
  destruct (shr_m mrs''); [reflexivity| |reflexivity].
  destruct (Z.leb e'' _); reflexivity.
Qed.

Lemma mul_opp_l (x y : number) : mul (SFopp x) y = SFopp (mul x y).
Proof.
  destruct x as [s|s| |s m e], y as [s'|s'| |s' m' e']; try reflexivity;
    unfold mul; cbn [SFopp SFmul]; rewrite ?round_aux_opp;
    destruct s, s'; reflexivity.
Qed.

Lemma mul_opp_r (x y : number) : mul x (SFopp y) = SFopp (mul x y).
Proof.
  destruct x as [s|s| |s m e], y as [s'|s'| |s' m' e']; try reflexivity;
    unfold mul; cbn [SFopp SFmul]; rewrite ?round_aux_opp;
    destruct s, s'; reflexivity.
Qed.

Lemma div_opp_l (x y : number) : div (SFopp x) y = SFopp (div x y).
Proof.
  destruct x as [s|s| |s m e], y as [s'|s'| |s' m' e']; try reflexivity;
    unfold div; cbn [SFopp SFdiv];
    try (destruct (SFdiv_core_binary prec emax (Zpos m) e (Zpos m') e') as [[mz ez] lz];
         rewrite round_aux_opp);
    destruct s, s'; reflexivity.
Qed.

Lemma abs_opp (x : number) : abs (SFopp x) = abs x.
Proof. destruct x; reflexivity. Qed.

Lemma ofDecimal_opp (s : bool) (n : N) (e : Z) :
  ofDecimal (negb s) n e = SFopp (ofDecimal s n e).
Proof.
  assert (H : forall k d, ofRatio (negb s) k d = SFopp (ofRatio s k d)).
  { intros k d. unfold ofRatio. destruct k as [|p]; [reflexivity|].
    destruct (SFdiv_core_binary prec emax (Zpos p) 0 (Zpos d) 0) as [[mz ez] lz].
    rewrite round_aux_opp. reflexivity. }
  unfold ofDecimal. destruct e; apply H.
Qed.

Lemma clamps_opp (v : number) : clamps this (SFopp v) = clamps this v.
Proof. unfold clamps. rewrite mul_opp_l, abs_opp. reflexivity. Qed.

(** X12: conversion is odd on the source unit.  For a finite non-zero
    length whose quotient by the base size is finite, non-zero and below
    10^21, and an accepted precision, converting the negated length gives
    the negated result in the same unit, in the clamp branch as in the
    scaling branch. *)
Theorem negated_length_negated_result
    (s s' : bool) (m m' : positive) (e e' : Z) (unitNode : UnitNode)
    (Hunit : unitOf unitNode = Some (_unit this))
    (Hprec : validPrecision (_precision this) = true)
    (Hquot : div (S754_finite s m e) (_baseSize this) = S754_finite s' m' e')
    (Hbelow : atLeast1e21 m' e' = false) :
  parseValueObject this (SFopp (S754_finite s m e)) unitNode
  = (r <- parseValueObject this (S754_finite s m e) unitNode ;;
     Ok (SFopp (fst r), snd r)).
Proof.
  set (v := S754_finite s m e) in *.
  rewrite !(parseValueObject_source this _ unitNode Hunit).
  rewrite clamps_opp, abs_opp.
  destruct (clamps this v).
  - cbn [bind fst snd]. destruct (ltb (abs v) (_minUnitSize this)); [reflexivity|].
    assert (Hs : signOf (SFopp v) = SFopp (signOf v))
      by (unfold v; destruct s; reflexivity).
    rewrite Hs, mul_opp_r. reflexivity.
  - assert (Hpos : fixedValue (div v (_baseSize this)) (digitsOfPrecision (_precision this))
                   = Some (s', roundScaled m' e'
                                 (N.of_nat (digitsOfPrecision (_precision this))))).
    { rewrite Hquot. cbn [fixedValue]. rewrite Hbelow. reflexivity. }
    assert (Hneg : fixedValue (div (SFopp v) (_baseSize this))
                     (digitsOfPrecision (_precision this))
                   = Some (negb s', roundScaled m' e'
                                      (N.of_nat (digitsOfPrecision (_precision this))))).
    { rewrite div_opp_l, Hquot. cbn [SFopp fixedValue]. rewrite Hbelow. reflexivity. }
    destruct (toFixed_fixedValue _ _ _ _ Hprec Hpos) as (t & Ht & _ & Hpt).
    destruct (toFixed_fixedValue _ _ _ _ Hprec Hneg) as (t' & Ht' & _ & Hpt').
    unfold convertValue. rewrite Ht, Ht'. cbn [bind fst snd].
    rewrite Hpt, Hpt', ofDecimal_opp. reflexivity.
Qed.

End Negation.

(** ** A second pass *)

Section SecondPass.

Variable this : Plugin.

Lemma unitOf_set_nonEmpty (unitNode : UnitNode) (u : string) :
  nonEmpty u = true -> unitOf (setNumerator0 unitNode (Some u)) = Some u.
Proof.
  intros H. destruct u; [discriminate|].
  unfold unitOf, setNumerator0. cbn [numerator]. destruct (numerator unitNode); reflexivity.
Qed.

Lemma setNumerator0_twice (unitNode : UnitNode) (u u' : option string) :
  setNumerator0 (setNumerator0 unitNode u) u' = setNumerator0 unitNode u'.
Proof.
  unfold setNumerator0. cbn [numerator backupUnit].
  destruct (numerator unitNode); reflexivity.
Qed.

(** X13: a scaled length is not scaled again.  When riUnit is non-empty
    and differs from the source unit and from the absolute unit,
    converting a source-unit scalar that is not clamped and converting the
    result once more gives what one conversion gives. *)
Theorem scaled_scalar_not_rescaled (v : number) (unitNode : UnitNode)
    (Hunit : unitOf unitNode = Some (_unit this))
    (Hscaled : clamps this v = false)
    (Hri : nonEmpty (_riUnit this) = true)
    (Hsrc : _riUnit this <> _unit this)
    (Habs : _riUnit this <> _absoluteUnit this) :
  (once <- updateNode this (Dimension v unitNode) ;; updateNode this once)
  = updateNode this (Dimension v unitNode).
Proof.
  cbn [updateNode]. rewrite (parseValueObject_source this v unitNode Hunit), Hscaled.
  destruct (convertValue this v) as [r|]; [|reflexivity].
  cbn [bind fst snd updateNode].
  rewrite (foreign_unit_identity this r _ (_riUnit this)
             (unitOf_set_nonEmpty unitNode _ Hri) Hsrc Habs).
  cbn [bind fst snd]. rewrite setNumerator0_twice. reflexivity.
Qed.

(** X14: a second pass treats a relabelled absolute length as a length
    in the source unit.  With a non-empty source unit that differs from
    the absolute unit, the first conversion relabels the scalar to the
    source unit and keeps the magnitude, and converting the result once
    more applies the scale-or-clamp rule to that magnitude.  So whenever
    the magnitude is not clamped and riUnit differs from the source unit,
    two conversions do not give what one conversion gives. *)
Theorem absolute_scalar_second_pass (v : number) (unitNode : UnitNode)
    (Hunit : unitOf unitNode = Some (_absoluteUnit this))
    (Hdistinct : _absoluteUnit this <> _unit this)
    (Hsource : nonEmpty (_unit this) = true) :
  updateNode this (Dimension v unitNode)
  = Ok (Dimension v (setNumerator0 unitNode (Some (_unit this))))
  /\ (once <- updateNode this (Dimension v unitNode) ;; updateNode this once)
     = (r <- (if clamps this v then
                Ok (if ltb (abs v) (_minUnitSize this) then v
                    else mul (_minUnitSize this) (signOf v),
                    Some (_unit this))
              else
                c <- convertValue this v ;; Ok (c, Some (_riUnit this))) ;;
        Ok (Dimension (fst r) (setNumerator0 unitNode (snd r))))
  /\ (clamps this v = false ->
      _riUnit this <> _unit this ->
      (once <- updateNode this (Dimension v unitNode) ;; updateNode this once)
      <> updateNode this (Dimension v unitNode)).
Proof.
  assert (H1 : parseValueObject this v unitNode = Ok (v, Some (_unit this))).
  { unfold parseValueObject.
    rewrite Hunit, (unitEq_neq _ _ Hdistinct), unitEq_refl. reflexivity. }
  assert (Hfirst : updateNode this (Dimension v unitNode)
                   = Ok (Dimension v (setNumerator0 unitNode (Some (_unit this))))).
  { cbn [updateNode]. rewrite H1. reflexivity. }
  assert (Hsecond :
    (once <- updateNode this (Dimension v unitNode) ;; updateNode this once)
    = (r <- (if clamps this v then
               Ok (if ltb (abs v) (_minUnitSize this) then v
                   else mul (_minUnitSize this) (signOf v),
                   Some (_unit this))
             else
               c <- convertValue this v ;; Ok (c, Some (_riUnit this))) ;;
       Ok (Dimension (fst r) (setNumerator0 unitNode (snd r))))).
  { rewrite Hfirst. cbn [bind updateNode].
    rewrite (parseValueObject_source this v _ (unitOf_set_nonEmpty unitNode _ Hsource)).
    destruct (clamps this v).
    - cbn [bind fst snd]. rewrite setNumerator0_twice. reflexivity.
    - destruct (convertValue this v); [|reflexivity].
      cbn [bind fst snd]. rewrite setNumerator0_twice. reflexivity. }
  split; [exact Hfirst|]. split; [exact Hsecond|].
  intros Hscaled Hri. rewrite Hsecond, Hfirst, Hscaled.
  destruct (convertValue this v) as [c|]; [|discriminate].
  cbn [bind fst snd]. intros Heq. injection Heq as _ Hnum.
  apply Hri. unfold setNumerator0 in Hnum.
  destruct (numerator unitNode); injection Hnum as Hnum; exact Hnum.
Qed.

End SecondPass.

(** ** Comma groups, blank texts and nested calls *)

Section Declarations2.

Variable this : Plugin.

(** X15: for a comma-group property whose text has only non-empty comma
    segments that each carry a token, visitDeclaration splits the text on
    the comma, converts every segment on its own and rejoins the results
    with comma-space, in the original order. *)
Theorem comma_group_declaration_converted (decl : Declaration) (value : string)
    (Hname : existsb (String.eqb (name decl)) csvProps = true)
    (Hinline : inline decl = false)
    (Hvalue : declValue decl = Anonymous value)
    (Hsegs : Forall (fun seg => nonEmpty seg = true /\ Str.matchTokens seg <> None)
                    (Str.split "," value)) :
  visitDeclaration this decl
  = (s <- Spec.commaGroups this value ;;
     Ok (setCurrentPropName this (name decl),
         {| name := name decl; inline := false; declValue := Anonymous s |})).
Proof.
  unfold visitDeclaration. rewrite Hinline, Hvalue. unfold processRuleNode.
  pose proof (comma_groups_when_segments_tokenized
                (setCurrentPropName this (name decl)) value Hname Hsegs) as H.
  unfold processRuleNode in H.
  destruct (processRuleNodeWith _ _ (Anonymous value)) as [n'|] eqn:E; cbn [bind] in *.
  - change (Spec.commaGroups (setCurrentPropName this (name decl)) value)
      with (Spec.commaGroups this value) in H.
    destruct (Spec.commaGroups this value) as [t|]; cbn [bind] in *; [|discriminate H].
    injection H as ->. reflexivity.
  - change (Spec.commaGroups (setCurrentPropName this (name decl)) value)
      with (Spec.commaGroups this value) in H.
    destruct (Spec.commaGroups this value) as [t|]; cbn [bind] in *; [discriminate H|].
    injection H as ->. reflexivity.
Qed.

Lemma blank_no_comma (value : string) :
  allChars blankChar value = true -> Str.split "," value = [value].
Proof.
  induction value as [|c v IH]; [reflexivity|]. cbn [allChars Str.split].
  intros H. apply andb_prop in H as [Hc Hv].
  destruct (Ascii.eqb c ",") eqn:E.
  - apply Ascii.eqb_eq in E. subst c. discriminate Hc.
  - rewrite (IH Hv). reflexivity.
Qed.

(** X16: a text made of white space and exclamation marks only (the empty
    text included) is replaced by the text undefined when the property is
    a comma-group property, and is left as it is for any other
    property. *)
Theorem blank_text_by_property (value : string)
    (Hblank : allChars blankChar value = true) :
  (isCsvProp this = true ->
   processRuleNode this (RNode (Anonymous value)) = Ok (RNode (Anonymous "undefined")))
  /\ (isCsvProp this = false ->
      processRuleNode this (RNode (Anonymous value)) = Ok (RNode (Anonymous value))).
Proof.
  pose proof (proj2 (no_token_iff_blank value) Hblank) as Hnone.
  split; intros Hcsv.
  - unfold processRuleNode, processRuleNodeWith.
    rewrite Hcsv, (blank_no_comma value Hblank). cbn [csvLoop].
    assert (Hp : parseString this value (Some value) = Ok None).
    { unfold parseString. destruct value; rewrite Hnone; reflexivity. }
    rewrite Hp. reflexivity.
  - apply tokenless_text_unchanged; assumption.
Qed.



End Declarations2.

(** ** Witnesses of the further properties *)

Lemma invalid_precision_raises_witness :
  validPrecision (_precision overPrecisePlugin) = false
  /\ unitOf pxUnit = Some (_unit overPrecisePlugin)
  /\ convertValue overPrecisePlugin (ofZ 24) = Throw RangeError
  /\ (clamps overPrecisePlugin (ofZ 24) = false ->
      parseValueObject overPrecisePlugin (ofZ 24) pxUnit = Throw RangeError)
  /\ (clamps overPrecisePlugin (ofZ 24) = true ->
      exists r, parseValueObject overPrecisePlugin (ofZ 24) pxUnit = Ok r).
Proof.
  refine (conj _ (conj _
    (invalid_precision_raises overPrecisePlugin (ofZ 24) pxUnit _ _)));
    vm_compute; reflexivity.
Defined.


Lemma zero_base_size_gives_infinity_witness :
  _baseSize zeroBasePlugin = S754_zero false
  /\ _minSize zeroBasePlugin = S754_finite false 4503599627370496 (-48)
  /\ _minScaleFactor zeroBasePlugin
     = div (_minSize zeroBasePlugin) (_baseSize zeroBasePlugin)
  /\ finiteNumber (_minUnitSize zeroBasePlugin) = true
  /\ validPrecision (_precision zeroBasePlugin) = true
  /\ unitOf pxUnit = Some (_unit zeroBasePlugin)
  /\ parseValueObject zeroBasePlugin (S754_finite false 6755399441055744 (-48)) pxUnit
     = Ok (S754_infinity (xorb false false), Some (_riUnit zeroBasePlugin))
  /\ parseValueObject zeroBasePlugin (S754_zero false) pxUnit
     = Ok (NaN, Some (_riUnit zeroBasePlugin)).
Proof.
  refine (conj _ (conj _ (conj _ (conj _ (conj _ (conj _
    (zero_base_size_gives_infinity zeroBasePlugin false false false
       6755399441055744 4503599627370496 (-48) (-48) pxUnit _ _ _ _ _ _)))))));
    vm_compute; reflexivity.
Defined.

Lemma walk_never_raises_witness :
  validPrecision (_precision defaultPlugin) = true
  /\ (exists this' node',
        visitDeclaration defaultPlugin borderDeclaration = Ok (this', node'))
  /\ (exists this' node', visitRule defaultPlugin borderDeclaration = Ok (this', node'))
  /\ (exists ruleNodes',
        processRuleNodes defaultPlugin [Dimension (ofZ 10) pxUnit; Anonymous "solid"]
        = Ok ruleNodes').
Proof.
  refine (conj _
    (walk_never_raises defaultPlugin borderDeclaration
       [Dimension (ofZ 10) pxUnit; Anonymous "solid"] _));
    vm_compute; reflexivity.
Defined.

Lemma tokens_are_plain_witness :
  Str.matchTokens "10px solid red" = Some ["10px"; "solid"; "red"]
  /\ ["10px"; "solid"; "red"] <> []
  /\ Forall (fun tok => nonEmpty tok = true /\ allChars notSpace tok = true)
            ["10px"; "solid"; "red"].
Proof.
  refine (conj _ (tokens_are_plain "10px solid red" ["10px"; "solid"; "red"] _));
    vm_compute; reflexivity.
Defined.

Lemma inert_text_is_its_tokens_witness :
  isCsvProp defaultPlugin = false
  /\ Str.matchTokens "red  ! important" = Some ["red"; "important"]
  /\ forallb (inert defaultPlugin) ["red"; "important"] = true
  /\ Str.join " " ["red"; "important"] = "red important"
  /\ parseString defaultPlugin "red  ! important" None
     = Ok (Some (Str.join " " ["red"; "important"]))
  /\ processRuleNode defaultPlugin (RNode (Anonymous "red  ! important"))
     = Ok (RNode (Anonymous (Str.join " " ["red"; "important"]))).
Proof.
  refine (conj _ (conj _ (conj _ (conj _
    (inert_text_is_its_tokens defaultPlugin "red  ! important" ["red"; "important"]
       _ _ _)))));
    vm_compute; reflexivity.
Defined.

Lemma negated_length_negated_result_witness :
  unitOf pxUnit = Some (_unit defaultPlugin)
  /\ validPrecision (_precision defaultPlugin) = true
  /\ div (S754_finite false 5629499534213120 (-49)) (_baseSize defaultPlugin)
     = S754_finite false 7505999378950827 (-54)
  /\ atLeast1e21 7505999378950827 (-54) = false
  /\ parseValueObject defaultPlugin
       (SFopp (S754_finite false 5629499534213120 (-49))) pxUnit
     = (r <- parseValueObject defaultPlugin
               (S754_finite false 5629499534213120 (-49)) pxUnit ;;
        Ok (SFopp (fst r), snd r)).
Proof.
  refine (conj _ (conj _ (conj _ (conj _
    (negated_length_negated_result defaultPlugin false false
       5629499534213120 7505999378950827 (-49) (-54) pxUnit _ _ _ _)))));
    vm_compute; reflexivity.
Defined.

Lemma scaled_scalar_not_rescaled_witness :
  unitOf pxUnit = Some (_unit defaultPlugin)
  /\ clamps defaultPlugin (ofZ 24) = false
  /\ nonEmpty (_riUnit defaultPlugin) = true
  /\ _riUnit defaultPlugin <> _unit defaultPlugin
  /\ _riUnit defaultPlugin <> _absoluteUnit defaultPlugin
  /\ (once <- updateNode defaultPlugin (Dimension (ofZ 24) pxUnit) ;;
      updateNode defaultPlugin once)
     = updateNode defaultPlugin (Dimension (ofZ 24) pxUnit).
Proof.
  refine (conj _ (conj _ (conj _ (conj _ (conj _
    (scaled_scalar_not_rescaled defaultPlugin (ofZ 24) pxUnit _ _ _ _ _))))));
    solve [vm_compute; reflexivity | vm_compute; discriminate].
Defined.

Lemma absolute_scalar_second_pass_witness :
  unitOf apxUnit = Some (_absoluteUnit defaultPlugin)
  /\ _absoluteUnit defaultPlugin <> _unit defaultPlugin
  /\ nonEmpty (_unit defaultPlugin) = true
  /\ clamps defaultPlugin (ofZ 24) = false
  /\ _riUnit defaultPlugin <> _unit defaultPlugin
  /\ updateNode defaultPlugin (Dimension (ofZ 24) apxUnit)
     = Ok (Dimension (ofZ 24) (setNumerator0 apxUnit (Some (_unit defaultPlugin))))
  /\ (once <- updateNode defaultPlugin (Dimension (ofZ 24) apxUnit) ;;
      updateNode defaultPlugin once)
     = Ok (Dimension (ofZ 1) (setNumerator0 apxUnit (Some "rem")))
  /\ (once <- updateNode defaultPlugin (Dimension (ofZ 24) apxUnit) ;;
      updateNode defaultPlugin once)
     <> updateNode defaultPlugin (Dimension (ofZ 24) apxUnit).
Proof.
  refine (conj _ (conj _ (conj _ (conj _ (conj _
    (match absolute_scalar_second_pass defaultPlugin (ofZ 24) apxUnit _ _ _ with
     | conj Hfirst (conj Hsecond Hdiffer) =>
         conj Hfirst (conj (eq_trans Hsecond _) (Hdiffer _ _))
     end))))));
    solve [vm_compute; reflexivity | vm_compute; discriminate].
Defined.

Lemma comma_group_declaration_converted_witness :
  existsb (String.eqb (name positionPair)) csvProps = true
  /\ inline positionPair = false
  /\ declValue positionPair = Anonymous "10px 20px, 5px 5px"
  /\ Forall (fun seg => nonEmpty seg = true /\ Str.matchTokens seg <> None)
            (Str.split "," "10px 20px, 5px 5px")
  /\ visitDeclaration defaultPlugin positionPair
     = (s <- Spec.commaGroups defaultPlugin "10px 20px, 5px 5px" ;;
        Ok (setCurrentPropName defaultPlugin (name positionPair),
            {| name := name positionPair; inline := false; declValue := Anonymous s |})).
Proof.
  assert (Hsegs : Forall (fun seg => nonEmpty seg = true /\ Str.matchTokens seg <> None)
                         (Str.split "," "10px 20px, 5px 5px")).
  { repeat constructor; vm_compute; discriminate. }
  refine (conj _ (conj _ (conj _ (conj Hsegs
    (comma_group_declaration_converted defaultPlugin positionPair
       "10px 20px, 5px 5px" _ _ _ Hsegs)))));
    vm_compute; reflexivity.
Defined.

Lemma blank_text_by_property_witness :
  allChars blankChar " ! " = true
  /\ (isCsvProp (setCurrentPropName defaultPlugin "background") = true ->
      processRuleNode (setCurrentPropName defaultPlugin "background")
        (RNode (Anonymous " ! "))
      = Ok (RNode (Anonymous "undefined")))
  /\ (isCsvProp (setCurrentPropName defaultPlugin "background") = false ->
      processRuleNode (setCurrentPropName defaultPlugin "background")
        (RNode (Anonymous " ! "))
      = Ok (RNode (Anonymous " ! "))).
Proof.
  refine (conj _
    (blank_text_by_property (setCurrentPropName defaultPlugin "background") " ! " _));
    vm_compute; reflexivity.
Defined.


(** * The conversion rule in full *)

(** ** What the scaling branch produces *)

Section Scaling.

Import Chars.

Variable this : Plugin.

Lemma shownFractionDigits_numeral (negative : bool) (ip fp : string) (f : nat) :
  allDigits ip = true -> allDigits fp = true -> length fp = f ->
  shownFractionDigits (signText negative ++ ip ++ pointTail f fp) = f.
Proof.
  intros Hip Hfp Hl.
  assert (H : shownFractionDigits (ip ++ pointTail f fp) = f).
  { induction ip as [|c ip IH]; simpl.
    - destruct f; simpl; [reflexivity|].
      rewrite (span_digits_end fp Hfp). exact Hl.
    - simpl in Hip. apply andb_prop in Hip as [Hc Hip].
      destruct (digit_is_plain c Hc) as (_ & _ & _ & Hdot & _).
      rewrite Hdot. apply IH. exact Hip. }
  destruct negative; simpl; exact H.
Qed.

(** Fixed notation of a zero or of a finite number below [10 ^ 21] shows
    exactly the requested number of fractional digits, and reads back as
    the number nearest to the printed decimal. *)
Lemma toFixed_shown (x p : number) (negative : bool) (n : N) :
  validPrecision p = true ->
  fixedValue x (digitsOfPrecision p) = Some (negative, n) ->
  exists s,
    toFixed x p = Ok s
    /\ shownFractionDigits s = digitsOfPrecision p
    /\ parseFloat s = ofDecimal negative n (- Z.of_nat (digitsOfPrecision p)).
Proof.
  intros Hp Hx. rewrite (toFixed_valid x p Hp).
  destruct x as [s|s| |s m e]; try discriminate Hx.
  - injection Hx as <- <-.
    destruct (fixedDigits_shape 0 (digitsOfPrecision p))
      as (ip & fp & Hs & Hip & Hl & Hfp & Hf & Hv).
    eexists. split; [reflexivity|].
    rewrite Hs. split.
    + apply (shownFractionDigits_numeral false); assumption.
    + rewrite <- Hv. apply (parseFloat_numeral false); assumption.
  - simpl in Hx. destruct (atLeast1e21 m e); [discriminate Hx|].
    injection Hx as <- <-.
    destruct (fixedDigits_shape (roundScaled m e (N.of_nat (digitsOfPrecision p)))
                                (digitsOfPrecision p))
      as (ip & fp & Hs & Hip & Hl & Hfp & Hf & Hv).
    eexists. split; [reflexivity|].
    rewrite Hs. split.
    + apply shownFractionDigits_numeral; assumption.
    + rewrite <- Hv. apply parseFloat_numeral; assumption.
Qed.

(** Every value that [convertValue] returns: the precision was accepted,
    the value is the quotient rounded to that many fractional digits, and
    it was read back from the text that [toFixed] printed. *)
Lemma convertValue_produces (v r : number) :
  convertValue this v = Ok r ->
  validPrecision (_precision this) = true
  /\ Rule.roundedTo (digitsOfPrecision (_precision this)) (div v (_baseSize this)) r
  /\ exists s,
       toFixed (div v (_baseSize this)) (_precision this) = Ok s
       /\ r = parseFloat s
       /\ (exponentialRange (div v (_baseSize this)) = false ->
           shownFractionDigits s <= digitsOfPrecision (_precision this))
       /\ (exponentialRange (div v (_baseSize this)) = true ->
           s = toString (div v (_baseSize this))).
Proof.
  unfold convertValue. intros H.
  destruct (validPrecision (_precision this)) eqn:Hp;
    [|rewrite (toFixed_invalid _ _ Hp) in H; discriminate H].
  split; [reflexivity|].
  destruct (div v (_baseSize this)) as [s|s| |s m e] eqn:Hx.
  - destruct (toFixed_shown (S754_zero s) _ false 0 Hp eq_refl) as (t & Ht & Hsh & Hparse).
    rewrite Ht in H. injection H as <-.
    split.
    + simpl. rewrite Hparse.
      destruct (- Z.of_nat (digitsOfPrecision (_precision this)))%Z; reflexivity.
    + exists t. split; [exact Ht|]. split; [reflexivity|].
      split; [intros _; rewrite Hsh; apply le_n | discriminate].
  - rewrite (toFixed_valid _ _ Hp) in H. injection H as <-.
    split.
    + simpl. destruct s; vm_compute; reflexivity.
    + exists (toString (S754_infinity s)).
      split; [rewrite (toFixed_valid _ _ Hp); reflexivity|]. split; [reflexivity|].
      split; [|discriminate].
      intros _. destruct s; simpl; apply Nat.le_0_l.
  - rewrite (toFixed_valid _ _ Hp) in H. injection H as <-.
    split.
    + vm_compute. reflexivity.
    + exists (toString S754_nan).
      split; [rewrite (toFixed_valid _ _ Hp); reflexivity|]. split; [reflexivity|].
      split; [|discriminate].
      intros _. simpl. apply Nat.le_0_l.
  - destruct (atLeast1e21 m e) eqn:Hbig.
    + rewrite (toFixed_valid _ _ Hp), Hbig in H. injection H as <-.
      split.
      * unfold Rule.roundedTo. rewrite Hbig. reflexivity.
      * exists (toString (S754_finite s m e)).
        split; [rewrite (toFixed_valid _ _ Hp), Hbig; reflexivity|].
        split; [reflexivity|].
        split; [|reflexivity].
        simpl. rewrite Hbig. discriminate.
    + assert (Hfix : fixedValue (S754_finite s m e) (digitsOfPrecision (_precision this))
                     = Some (s, roundScaled m e (N.of_nat (digitsOfPrecision (_precision this))))).
      { simpl. rewrite Hbig. reflexivity. }
      destruct (toFixed_shown _ _ _ _ Hp Hfix) as (t & Ht & Hsh & Hparse).
      rewrite Ht in H. injection H as <-.
      split.
      * unfold Rule.roundedTo. rewrite Hbig.
        exists (roundScaled m e (N.of_nat (digitsOfPrecision (_precision this)))).
        split; [|exact Hparse].
        pose proof (roundScaled_nearest m e
                      (N.of_nat (digitsOfPrecision (_precision this)))) as Hn.
        unfold Rule.nearestScaled. destruct (ratio m e) as [num den]. exact Hn.
      * exists t. split; [exact Ht|]. split; [reflexivity|].
        split; [intros _; rewrite Hsh; apply le_n|].
        simpl. rewrite Hbig. discriminate.
Qed.

Lemma convertValue_refused (v : number) :
  validPrecision (_precision this) = false -> convertValue this v = Throw RangeError.
Proof.
  intros Hp. unfold convertValue. rewrite (toFixed_invalid _ _ Hp). reflexivity.
Qed.


End Scaling.

(** ** The claims about the conversion rule *)


(** C5 at its failing input: with absoluteUnit configured equal to the
    source unit, the structured form scales the scalar (24, absoluteUnit)
    to (1, riUnit), where the claim returns (24, unit); the string form
    passes the same length through as 24px. *)
Theorem absolute_unit_scaled_when_units_coincide :
  _absoluteUnit sameUnitsPlugin = _unit sameUnitsPlugin
  /\ unitOf pxUnit = Some (_absoluteUnit sameUnitsPlugin)
  /\ parseValueObject sameUnitsPlugin (ofZ 24) pxUnit = Ok (ofZ 1, Some "rem")
  /\ parseValueObject sameUnitsPlugin (ofZ 24) pxUnit
     <> Ok (ofZ 24, Some (_unit sameUnitsPlugin))
  /\ parseValueString sameUnitsPlugin (JString "24px") = Ok (JString "24px").
Proof.
  assert (H : parseValueObject sameUnitsPlugin (ofZ 24) pxUnit = Ok (ofZ 1, Some "rem"))
    by (vm_compute; reflexivity).
  repeat split; try (vm_compute; reflexivity).
  rewrite H. vm_compute. discriminate.
Qed.

(** C6, amended: converting the scalar (0, unit), unit being the
    configured source unit, never takes the clamp branch, whatever the
    configuration: it takes the scaling branch.  The scaling branch
    returns {value: 0, unit: riUnit} when baseSize is neither zero nor NaN
    and the precision is one that toFixed accepts; with any other
    precision it raises RangeError, and with an accepted precision and a
    baseSize that is zero or NaN it returns {value: NaN, unit: riUnit}. *)
Theorem zero_takes_scaling_branch
    (this : Plugin) (s : bool) (unitNode : UnitNode)
    (Hunit : unitOf unitNode = Some (_unit this)) :
  clamps this (S754_zero s) = false
  /\ parseValueObject this (S754_zero s) unitNode
     = (v <- convertValue this (S754_zero s) ;; Ok (v, Some (_riUnit this)))
  /\ (dividesZero (_baseSize this) = true ->
      validPrecision (_precision this) = true ->
      parseValueObject this (S754_zero s) unitNode
      = Ok (S754_zero false, Some (_riUnit this)))
  /\ (validPrecision (_precision this) = false ->
      parseValueObject this (S754_zero s) unitNode = Throw RangeError)
  /\ (dividesZero (_baseSize this) = false ->
      validPrecision (_precision this) = true ->
      parseValueObject this (S754_zero s) unitNode = Ok (NaN, Some (_riUnit this))).
Proof.
  assert (Hc : clamps this (S754_zero s) = false).
  { unfold clamps. cbv zeta. rewrite zero_never_scales. reflexivity. }
  rewrite (parseValueObject_source _ _ _ Hunit), Hc.
  split; [reflexivity|]. split; [reflexivity|].
  split; [|split].
  - intros Hbase Hprec.
    destruct (convertValue_total this (S754_zero s) Hprec) as [r Hr].
    destruct (convertValue_produces this _ r Hr) as (_ & Hround & _).
    rewrite Hr. cbn [bind]. f_equal. f_equal.
    destruct (_baseSize this) as [b|b| |b m e]; try discriminate Hbase; exact Hround.
  - intros Hprec. rewrite (convertValue_refused this _ Hprec). reflexivity.
  - intros Hbase Hprec.
    destruct (convertValue_total this (S754_zero s) Hprec) as [r Hr].
    destruct (convertValue_produces this _ r Hr) as (_ & Hround & _).
    rewrite Hr. cbn [bind]. f_equal. f_equal.
    destruct (_baseSize this) as [b|b| |b m e]; try discriminate Hbase; exact Hround.
Qed.


(** ** Counterexamples *)


(** C6 as stated fails: the scalar (0, px) raises RangeError with a
    precision of 101, and becomes (NaN, rem) with a base size of zero and
    with a base size that is not a number. *)
Lemma zero_scaling_counterexample :
  unitOf pxUnit = Some (_unit overPrecisePlugin)
  /\ parseValueObject overPrecisePlugin (S754_zero false) pxUnit = Throw RangeError
  /\ parseValueObject zeroBasePlugin (S754_zero false) pxUnit = Ok (NaN, Some "rem")
  /\ parseValueObject nanBasePlugin (S754_zero false) pxUnit = Ok (NaN, Some "rem").
Proof. repeat split; vm_compute; reflexivity. Qed.


(** ** Witnesses *)


Lemma zero_takes_scaling_branch_witness :
  unitOf pxUnit = Some (_unit defaultPlugin)
  /\ dividesZero (_baseSize defaultPlugin) = true
  /\ validPrecision (_precision defaultPlugin) = true
  /\ clamps defaultPlugin (S754_zero false) = false
  /\ parseValueObject defaultPlugin (S754_zero false) pxUnit
     = (v <- convertValue defaultPlugin (S754_zero false) ;;
        Ok (v, Some (_riUnit defaultPlugin)))
  /\ parseValueObject defaultPlugin (S754_zero false) pxUnit
     = Ok (S754_zero false, Some (_riUnit defaultPlugin)).
Proof.
  refine (conj _ (conj _ (conj _
    (match zero_takes_scaling_branch defaultPlugin false pxUnit _ with
     | conj Hclamp (conj Hbranch (conj Hzero _)) =>
         conj Hclamp (conj Hbranch (Hzero _ _))
     end))));
    vm_compute; reflexivity.
Defined.

